(** * VFS appointment monitor: the monitoring loop and the message formatter

    A shallow embedding of [src/main.py]: the function
    [format_appointment_message] and the monitoring loop of [main], with the
    external collaborators (clock, the two checkers, the Telegram notifier,
    [time.sleep]) given as a scripted environment, and every observable
    action recorded in a trace.

    The collaborators live in other modules ([vfs_monitor], [vfs_checker],
    [telegram_notifier], [config], [keep_alive]); all that is assumed of
    them is their contract: a checker returns a list of appointment dicts or
    raises, a send returns or raises.  Exceptions, [KeyboardInterrupt]
    included, are raised by calls into the collaborators; the logger does
    not raise. *)

From Stdlib Require Import Ascii String.
From stdpp Require Import base option list strings gmap pretty.

Local Open Scope string_scope.

(** ** Python values, exceptions and results *)

(** The values an appointment dict holds.  The dict is loosely typed, so a
    field may hold a string, [None], a bool or an int (floats and nested
    containers are left out). *)
Inductive pyval : Type :=
  | PyNone
  | PyBool (b : bool)
  | PyInt (z : Z)
  | PyStr (s : string).

(** An appointment record: a dict keyed by field name.  The formatter only
    uses [dict.get] and subscripting, so the insertion order of the dict
    plays no role. *)
Abbreviation record := (gmap string pyval).

(** The three handler-relevant families of the exception hierarchy:
    subclasses of [Exception], [KeyboardInterrupt], and the remaining direct
    subclasses of [BaseException] ([SystemExit], [GeneratorExit]). *)
Inductive exn_class : Type :=
  | ExceptionK
  | KeyboardInterruptK
  | OtherBaseExceptionK.

Record exn : Type := Exn { exn_kind : exn_class; exn_str : string }.

Inductive result (A : Type) : Type :=
  | Returned (a : A)
  | Raised (e : exn).
Arguments Returned {A} a.
Arguments Raised {A} e.

Definition is_Exception (e : exn) : bool :=
  match exn_kind e with ExceptionK => true | _ => false end.

Definition AttributeError (msg : string) : exn := Exn ExceptionK msg.

(** ** Strings *)

Definition nl : string := String (ascii_of_nat 10) EmptyString.

(** Python truth value: [bool(v)]. *)
Definition truthy (v : pyval) : bool :=
  match v with
  | PyNone => false
  | PyBool b => b
  | PyInt z => negb (Z.eqb z 0)
  | PyStr s => negb (String.eqb s "")
  end.

(** [format(v)] as an f-string replacement field renders it. *)
Definition py_str (v : pyval) : string :=
  match v with
  | PyNone => "None"
  | PyBool true => "True"
  | PyBool false => "False"
  | PyInt z => pretty z
  | PyStr s => s
  end.

(** [v == 'literal']: only a string compares equal to a string literal. *)
Definition py_eq_str (v : pyval) (lit : string) : bool :=
  match v with
  | PyStr s => String.eqb s lit
  | _ => false
  end.

Definition is_lower (c : ascii) : bool :=
  let n := nat_of_ascii c in (97 <=? n)%nat && (n <=? 122)%nat.
Definition is_upper (c : ascii) : bool :=
  let n := nat_of_ascii c in (65 <=? n)%nat && (n <=? 90)%nat.
Definition to_upper (c : ascii) : ascii :=
  if is_lower c then ascii_of_nat (nat_of_ascii c - 32) else c.
Definition to_lower (c : ascii) : ascii :=
  if is_upper c then ascii_of_nat (nat_of_ascii c + 32) else c.

(** [str.title()] for ASCII text: a cased character that follows an uncased
    one is upper-cased, one that follows a cased one is lower-cased.  The
    casing of characters outside ASCII is not modelled: their bytes are kept
    as they are and count as uncased, so for such a text the result stands
    for the text Python shows without being it.  What is stated about the
    shown text is stated for ASCII text ([is_ascii_text]). *)
Fixpoint title_from (previous_is_cased : bool) (s : string) : string :=
  match s with
  | EmptyString => EmptyString
  | String c rest =>
      let cased := is_lower c || is_upper c in
      String (if previous_is_cased then to_lower c else to_upper c)
             (title_from cased rest)
  end.

Definition title (s : string) : string := title_from false s.

(** [v.title()]: only strings have the method. *)
Definition py_title (v : pyval) : result string :=
  match v with
  | PyStr s => Returned (title s)
  | PyNone => Raised (AttributeError "'NoneType' object has no attribute 'title'")
  | PyBool _ => Raised (AttributeError "'bool' object has no attribute 'title'")
  | PyInt _ => Raised (AttributeError "'int' object has no attribute 'title'")
  end.

(** A text all of whose bytes are ASCII. *)
Definition is_ascii_text (s : string) : bool :=
  forallb (fun c => (nat_of_ascii c <? 128)%nat) (list_ascii_of_string s).

(** Substring test, Python's [sub in s]. *)
Fixpoint contains (sub s : string) : bool :=
  String.prefix sub s ||
  match s with
  | EmptyString => false
  | String _ rest => contains sub rest
  end.

(** ** [format_appointment_message] *)

(** [appointment.get(key, default)] *)
Definition get_default (appointment : record) (key : string) (default : pyval) : pyval :=
  match appointment !! key with
  | Some v => v
  | None => default
  end.

(** [appointment.get(key)], absent keys give [None]. *)
Definition get (appointment : record) (key : string) : pyval :=
  get_default appointment key PyNone.

Definition red_glyph : string := "🔴".
Definition yellow_glyph : string := "🟡".
Definition green_glyph : string := "🟢".

Definition confidence_emoji (confidence : pyval) : string :=
  if py_eq_str confidence "low" then red_glyph
  else if py_eq_str confidence "medium" then yellow_glyph
  else green_glyph.

Definition header_lines (appointment : record) : string :=
  "🎯 **VISA APPOINTMENT AVAILABLE!**" ++ nl ++ nl
  ++ "📍 **Location:** "
  ++ py_str (get_default appointment "location" (PyStr "Italy Visa Center Morocco")) ++ nl
  ++ "📅 **Date:** " ++ py_str (get_default appointment "date" (PyStr "Not specified")) ++ nl
  ++ "⏰ **Time:** " ++ py_str (get_default appointment "time" (PyStr "Not specified")) ++ nl.

Definition link_line (appointment : record) : string :=
  if truthy (get appointment "link")
  then "🔗 **Book Now:** " ++ py_str (get appointment "link") ++ nl
  else "".

Definition confidence_line (appointment : record) : result string :=
  if truthy (get appointment "confidence") then
    match py_title (get appointment "confidence") with
    | Returned t =>
        Returned (confidence_emoji (get appointment "confidence")
                  ++ " **Confidence:** " ++ t ++ nl)
    | Raised e => Raised e
    end
  else Returned "".

Definition source_line (appointment : record) : string :=
  if truthy (get appointment "source")
  then "📊 **Source:** " ++ py_str (get appointment "source") ++ nl
  else "".

Definition footer_lines (found_at : string) : string :=
  nl ++ "⚡ **Action Required:** Log in to VFS Global immediately to book this slot!" ++ nl
  ++ "🌐 **Website:** https://visa.vfsglobal.com/mar/fr/ita/dashboard" ++ nl
  ++ "⏱️ **Found at:** " ++ found_at.

Definition note_line (appointment : record) : string :=
  if truthy (get appointment "note")
  then nl ++ nl ++ "💡 **Note:** " ++ py_str (get appointment "note")
  else "".

(** The formatter.  [found_at] is the rendering of
    [datetime.now(morocco_tz)] that the function reads from the clock. *)
Definition format_appointment_message (found_at : string) (appointment : record)
  : result string :=
  match confidence_line appointment with
  | Returned conf =>
      Returned (header_lines appointment ++ link_line appointment ++ conf
                ++ source_line appointment ++ footer_lines found_at
                ++ note_line appointment)
  | Raised e => Raised e
  end.

(** The message for a record without any field, up to the clock reading. *)
Definition bare_message : string :=
  "🎯 **VISA APPOINTMENT AVAILABLE!**" ++ nl ++ nl
  ++ "📍 **Location:** Italy Visa Center Morocco" ++ nl
  ++ "📅 **Date:** Not specified" ++ nl
  ++ "⏰ **Time:** Not specified" ++ nl
  ++ nl ++ "⚡ **Action Required:** Log in to VFS Global immediately to book this slot!" ++ nl
  ++ "🌐 **Website:** https://visa.vfsglobal.com/mar/fr/ita/dashboard" ++ nl
  ++ "⏱️ **Found at:** ".

(** The glyph for a confidence given as text. *)
Definition glyph_of (confidence : string) : string :=
  if String.eqb confidence "low" then red_glyph
  else if String.eqb confidence "medium" then yellow_glyph
  else green_glyph.

(** ** The monitoring loop: state, trace and environment *)

Inductive level : Type := INFO | WARNING | ERROR | CRITICAL.

(** What the process does that can be observed from outside. *)
Inductive event : Type :=
  | ELog (lvl : level) (msg : string)
  (** a log line whose text is [prefix] followed by the repr of the dict *)
  | ELogRecord (lvl : level) (prefix : string) (appointment : record)
  (** [vfs_monitor.check_appointments()] is called *)
  | ECheckPrimary
  (** [enhanced_checker.check_availability()] is called *)
  | ECheckFallback
  (** [format_appointment_message(appointment)] is called *)
  | EFormat (appointment : record)
  (** [telegram_notifier.send_message(text)] is called; [delivered] is
      false when the call raises *)
  | ESend (text : string) (delivered : bool)
  (** [time.sleep(seconds)] is called *)
  | ESleep (seconds : nat).

(** The loop variables of [main]. *)
Record loop_state : Type := LoopState {
  last_check_time : option string;
  consecutive_errors : nat;
  use_enhanced_method : bool
}.

Definition max_consecutive_errors : nat := 5.

(** The part of [Config] the loop reads. *)
Record Config : Type := { check_interval : nat }.

(** What the collaborators do during one cycle.  A checker returns a list of
    records or raises; a send is delivered ([None]) or raises ([Some e]).
    Every call site is reached at most once per cycle, so one scripted
    outcome per call site describes any behaviour of the collaborators. *)
Record cycle_env : Type := {
  (** [datetime.now(config.timezone)], rendered by [strftime] *)
  now : result string;
  check_appointments : result (list record);
  check_availability : result (list record);
  (** the clock read by the formatter for the i-th record *)
  found_at : nat -> string;
  (** the send of the i-th record's message *)
  send_appointment : nat -> option exn;
  send_warning : option exn;
  send_stopped : option exn;
  sleep : option exn
}.

(** ** A state, trace and exception monad for the body of [main]

    The state is kept when an exception is raised: an assignment made
    before the raise is still visible in the handler. *)
Definition M (A : Type) : Type := loop_state -> result A * loop_state * list event.

Definition ret {A} (a : A) : M A := fun s => (Returned a, s, []).

Definition bind {A B} (m : M A) (f : A -> M B) : M B := fun s =>
  match m s with
  | (Returned a, s1, t1) => let '(r, s2, t2) := f a s1 in (r, s2, (t1 ++ t2)%list)
  | (Raised e, s1, t1) => (Raised e, s1, t1)
  end.

Declare Scope py_scope.
Delimit Scope py_scope with py.
Notation "x <- m ; k" := (bind m (fun x => k))
  (at level 20, m at level 100, k at level 200, only parsing) : py_scope.
Notation "m ;; k" := (bind m (fun _ => k))
  (at level 100, k at level 200, right associativity, only parsing) : py_scope.
Local Open Scope py_scope.

Definition emit (ev : event) : M unit := fun s => (Returned tt, s, [ev]).
Definition log (lvl : level) (msg : string) : M unit := emit (ELog lvl msg).
Definition gets {A} (f : loop_state -> A) : M A := fun s => (Returned (f s), s, []).
Definition modify (f : loop_state -> loop_state) : M unit := fun s => (Returned tt, f s, []).

(** The outcome of a call into a collaborator. *)
Definition call {A} (r : result A) : M A := fun s => (r, s, []).

(** [try: body / except Exception as e: handler e] *)
Definition try_except_Exception {A} (body : M A) (handler : exn -> M A) : M A := fun s =>
  match body s with
  | (Raised e, s1, t1) =>
      if is_Exception e
      then let '(r, s2, t2) := handler e s1 in (r, s2, (t1 ++ t2)%list)
      else (Raised e, s1, t1)
  | done => done
  end.

Definition send_message (outcome : option exn) (text : string) : M unit := fun s =>
  match outcome with
  | None => (Returned tt, s, [ESend text true])
  | Some e => (Raised e, s, [ESend text false])
  end.

Definition set_use_enhanced_method (b : bool) (s : loop_state) : loop_state :=
  LoopState (last_check_time s) (consecutive_errors s) b.
Definition set_consecutive_errors (n : nat) (s : loop_state) : loop_state :=
  LoopState (last_check_time s) n (use_enhanced_method s).
Definition set_last_check_time (t : string) (s : loop_state) : loop_state :=
  LoopState (Some t) (consecutive_errors s) (use_enhanced_method s).

Definition nonempty {A} (l : list A) : bool :=
  match l with [] => false | _ => true end.

(** ** One cycle *)

(** The log lines of a cycle. *)
Definition checking_msg (current_time : string) : string :=
  "Checking for appointments at " ++ current_time.
Definition primary_failed_msg (e : exn) : string :=
  "Primary method failed: " ++ exn_str e.
Definition enhanced_failed_msg (e : exn) : string :=
  "Enhanced method also failed: " ++ exn_str e.
Definition found_msg (n : nat) : string :=
  "Found " ++ pretty n ++ " available appointments".
Definition error_msg (n : nat) (e : exn) : string :=
  "Error checking appointments (attempt " ++ pretty n ++ "/"
  ++ pretty max_consecutive_errors ++ "): " ++ exn_str e.
Definition stopping_msg : string :=
  "Too many consecutive errors (" ++ pretty max_consecutive_errors
  ++ "). Stopping monitor.".
Definition waiting_msg (config : Config) : string :=
  "Waiting " ++ pretty (check_interval config) ++ " seconds until next check...".

Definition warning_text (error_msg : string) : string :=
  "⚠️ Monitor Warning" ++ nl ++ error_msg.
Definition stopped_text (error_msg : string) : string :=
  "🚨 Monitor Stopped" ++ nl ++ error_msg.

(** Lines 61-67: the primary method, unless the switch is set.  The result
    is the value of [appointments] afterwards. *)
Definition primary_step (env : cycle_env) : M (list record) :=
  enhanced <- gets use_enhanced_method;
  if negb enhanced then
    try_except_Exception
      (emit ECheckPrimary ;; call (check_appointments env))
      (fun e =>
         log WARNING (primary_failed_msg e) ;;
         log INFO "Switching to enhanced monitoring method" ;;
         modify (set_use_enhanced_method true) ;;
         ret [])
  else ret [].

(** Lines 69-76: the enhanced method, when the switch is set or nothing was
    found. *)
Definition fallback_step (env : cycle_env) (appointments : list record) : M (list record) :=
  enhanced <- gets use_enhanced_method;
  if enhanced || negb (nonempty appointments) then
    try_except_Exception
      (emit ECheckFallback ;;
       enhanced_appointments <- call (check_availability env);
       if nonempty enhanced_appointments then
         log INFO "Enhanced method detected potential appointments" ;;
         ret (appointments ++ enhanced_appointments)%list
       else ret appointments)
      (fun e =>
         log ERROR (enhanced_failed_msg e) ;;
         ret appointments)
  else ret appointments.

(** Lines 59-76: [appointments] as the two methods leave it. *)
Definition collect_appointments (env : cycle_env) : M (list record) :=
  appointments <- primary_step env;
  fallback_step env appointments.

(** Lines 82-85: the [for] loop over the appointments; [i] is the position
    of the head of [appointments] in the list of the cycle. *)
Fixpoint notify_each (env : cycle_env) (i : nat) (appointments : list record) : M unit :=
  match appointments with
  | [] => ret tt
  | appointment :: rest =>
      emit (EFormat appointment) ;;
      message <- call (format_appointment_message (found_at env i) appointment);
      send_message (send_appointment env i) message ;;
      emit (ELogRecord INFO "Notification sent for appointment: " appointment) ;;
      notify_each env (S i) rest
  end.

(** Lines 78-87. *)
Definition notify_appointments (env : cycle_env) (appointments : list record) : M unit :=
  if nonempty appointments then
    log INFO (found_msg (length appointments)) ;;
    notify_each env 0 appointments
  else log INFO "No appointments available".

(** Lines 55-90: the body of the per-cycle [try]. *)
Definition cycle_body (env : cycle_env) : M unit :=
  current_time <- call (now env);
  log INFO (checking_msg current_time) ;;
  appointments <- collect_appointments env;
  notify_appointments env appointments ;;
  modify (set_last_check_time current_time) ;;
  modify (set_consecutive_errors 0).

Inductive control : Type := Next | Break.

(** Lines 92-106: the per-cycle [except Exception as e]. *)
Definition error_handler (env : cycle_env) (e : exn) : M control :=
  modify (fun s => set_consecutive_errors (consecutive_errors s + 1) s) ;;
  n <- gets consecutive_errors;
  log ERROR (error_msg n e) ;;
  (if (3 <=? n)%nat then send_message (send_warning env) (warning_text (error_msg n e))
   else ret tt) ;;
  if (max_consecutive_errors <=? n)%nat then
    log CRITICAL stopping_msg ;;
    send_message (send_stopped env) (stopped_text stopping_msg) ;;
    ret Break
  else ret Next.

(** Lines 109-110. *)
Definition wait_for_next_check (config : Config) (env : cycle_env) : M unit :=
  log INFO (waiting_msg config) ;;
  emit (ESleep (check_interval config)) ;;
  call (match sleep env with None => Returned tt | Some e => Raised e end).

(** What follows the per-cycle [try] statement. *)
Definition after_try (config : Config) (env : cycle_env) (c : control) : M control :=
  match c with
  | Break => ret Break
  | Next => wait_for_next_check config env ;; ret Next
  end.

(** One iteration of [while True]. *)
Definition run_cycle (config : Config) (env : cycle_env) : M control :=
  c <- try_except_Exception (cycle_body env ;; ret Next) (error_handler env);
  after_try config env c.

(** ** The loop and [main] *)

Inductive loop_exit : Type :=
  | Broke          (** the [break] of line 106 *)
  | StillRunning.  (** the fuel ran out; the loop itself goes on *)

(** [while True], unrolled [fuel] times; [script k] is the environment of
    cycle [k]. *)
Fixpoint monitoring_loop (fuel : nat) (config : Config) (script : nat -> cycle_env)
    (k : nat) : M loop_exit :=
  match fuel with
  | O => ret StillRunning
  | S fuel' =>
      c <- run_cycle config (script k);
      match c with
      | Break => ret Broke
      | Next => monitoring_loop fuel' config script (S k)
      end
  end.

Definition initial_state : loop_state := LoopState None 0 false.


(** What happens around the loop: [keep_alive()], the construction of the
    collaborators, and the sends of the start-up and shutdown messages. *)
Record process_env : Type := {
  keep_alive : option exn;
  (** [Config()] *)
  config_init : option exn;
  (** [TelegramNotifier(...)]; [telegram_notifier] is bound once it returns *)
  notifier_init : option exn;
  (** [VFSMonitor(...)] and [EnhancedVFSChecker(...)] *)
  checkers_init : option exn;
  (** [datetime.now(morocco_tz)], rendered *)
  start_time : string;
  send_started : option exn;
  send_stopped_by_user : option exn;
  send_critical : option exn;
  config : Config;
  script : nat -> cycle_env
}.

Definition outcome (o : option exn) : result unit :=
  match o with None => Returned tt | Some e => Raised e end.

Definition started_text (start_time : string) : string :=
  "🤖 VFS Appointment Monitor Started" ++ nl
  ++ "Monitoring Italy visa appointments in Morocco with enhanced detection methods..."
  ++ nl ++ nl ++ "⏰ Started at: " ++ start_time.

(** Lines 36-46. *)
Definition startup (p : process_env) : M unit :=
  call (outcome (config_init p)) ;;
  call (outcome (notifier_init p)) ;;
  call (outcome (checkers_init p)) ;;
  send_message (send_started p) (started_text (start_time p)).

(** Whether the name [telegram_notifier] is bound when a handler of the
    outer [try] runs: it is unless the raise came from [Config()] or from
    the constructor of the notifier. *)
Definition notifier_bound (p : process_env) : bool :=
  match config_init p, notifier_init p with
  | None, None => true
  | _, _ => false
  end.

Definition UnboundLocalError : exn :=
  Exn ExceptionK
    "cannot access local variable 'telegram_notifier' where it is not associated with a value".

(** [telegram_notifier.send_message(text)] inside a handler of the outer
    [try]. *)
Definition handler_send (p : process_env) (o : option exn) (text : string) : M unit :=
  if notifier_bound p then send_message o text else call (Raised UnboundLocalError).

(** [try: body / except: pass] *)
Definition try_except_pass (body : M unit) : M unit := fun s =>
  match body s with
  | (Raised _, s1, t1) => (Returned tt, s1, t1)
  | done => done
  end.

Inductive main_exit : Type :=
  | AfterBreak      (** the loop was left by its [break] *)
  | AfterInterrupt  (** the [KeyboardInterrupt] handler ran to its end *)
  | NotYet.         (** the fuel ran out; the process is still in the loop *)

Definition critical_msg (e : exn) : string :=
  "Critical error in main loop: " ++ exn_str e.
Definition critical_text (e : exn) : string :=
  "🚨 Critical Error" ++ nl ++ critical_msg e.

(** Lines 112-114. *)
Definition on_keyboard_interrupt (p : process_env) : M main_exit :=
  log INFO "Monitor stopped by user" ;;
  handler_send p (send_stopped_by_user p) "🛑 VFS Monitor stopped by user" ;;
  ret AfterInterrupt.

(** Lines 115-122. *)
Definition on_exception (p : process_env) (e : exn) : M main_exit :=
  log CRITICAL (critical_msg e) ;;
  try_except_pass (handler_send p (send_critical p) (critical_text e)) ;;
  call (Raised e).

(** The outer [try] with its two [except] clauses. *)
Definition try_main (body : M main_exit) (p : process_env) : M main_exit := fun s =>
  match body s with
  | (Raised e, s1, t1) =>
      match exn_kind e with
      | KeyboardInterruptK =>
          let '(r, s2, t2) := on_keyboard_interrupt p s1 in (r, s2, (t1 ++ t2)%list)
      | ExceptionK =>
          let '(r, s2, t2) := on_exception p e s1 in (r, s2, (t1 ++ t2)%list)
      | OtherBaseExceptionK => (Raised e, s1, t1)
      end
  | done => done
  end.

(** The part of [main] inside the outer [try]. *)
Definition main_body (fuel : nat) (p : process_env) : M main_exit :=
  startup p ;;
  x <- monitoring_loop fuel (config p) (script p) 0;
  ret (match x with Broke => AfterBreak | StillRunning => NotYet end).

Definition main (fuel : nat) (p : process_env) : M main_exit :=
  call (outcome (keep_alive p)) ;;
  log INFO "Starting VFS Global Visa Appointment Monitor" ;;
  try_main (main_body fuel p) p.

(** [n] cycles in a row, from cycle [k] on, each of them going on to the next
    one: the state and the trace at the start of cycle [k + n].  [None] when
    the loop is left before. *)
Fixpoint cycles (config : Config) (script : nat -> cycle_env) (k n : nat)
    (s : loop_state) : option (loop_state * list event) :=
  match n with
  | O => Some (s, [])
  | S n' =>
      match run_cycle config (script k) s with
      | (Returned Next, s1, t1) =>
          match cycles config script (S k) n' s1 with
          | Some (s2, t2) => Some (s2, (t1 ++ t2)%list)
          | None => None
          end
      | _ => None
      end
  end.

(** The state at the start of cycle [k] of a run of [main], when the loop
    gets that far. *)
Definition state_before (config : Config) (script : nat -> cycle_env) (k : nat)
  : option loop_state :=
  fst <$> cycles config script 0 k initial_state.

(** Projections of a run. *)
Definition res {A} (x : result A * loop_state * list event) : result A := x.1.1.
Definition st {A} (x : result A * loop_state * list event) : loop_state := x.1.2.
Definition tr {A} (x : result A * loop_state * list event) : list event := x.2.

Definition is_send (ev : event) : bool :=
  match ev with ESend _ _ => true | _ => false end.
Definition is_warning (ev : event) : bool :=
  match ev with ESend text _ => String.prefix "⚠️ Monitor Warning" text | _ => false end.
Definition is_stopped (ev : event) : bool :=
  match ev with ESend text _ => String.prefix "🚨 Monitor Stopped" text | _ => false end.
Definition is_fallback_call (ev : event) : bool :=
  match ev with ECheckFallback => true | _ => false end.


Definition is_format (ev : event) : bool :=
  match ev with EFormat _ => true | _ => false end.
Definition is_log (ev : event) : bool :=
  match ev with ELog _ _ | ELogRecord _ _ _ => true | _ => false end.

Definition with_check_availability (r : result (list record)) (env : cycle_env) : cycle_env :=
  {| now := now env;
     check_appointments := check_appointments env;
     check_availability := r;
     found_at := found_at env;
     send_appointment := send_appointment env;
     send_warning := send_warning env;
     send_stopped := send_stopped env;
     sleep := sleep env |}.

(** What the interpreter makes of the call [main()] at the end of the
    script (lines 156-157), the main thread being the one that decides:
    status 0 when [main] returns, status 1 when an [Exception] leaves it.
    The status after a [KeyboardInterrupt] or a [SystemExit] depends on the
    signal or on the exit code and is left out. *)
Definition exit_status (r : result main_exit) : option nat :=
  match r with
  | Returned NotYet => None
  | Returned _ => Some 0
  | Raised e => if is_Exception e then Some 1 else None
  end.

(** Whether a send went through. *)
Definition delivered (o : option exn) : bool :=
  match o with None => true | Some _ => false end.

(** A run of consecutive failing cycles: the body of each of the [n] cycles
    from cycle [k] on raises an [Exception]. *)
Fixpoint failing_streak (config : Config) (script : nat -> cycle_env) (k n : nat)
    (s : loop_state) : Prop :=
  match n with
  | O => True
  | S n' =>
      (exists e, res (cycle_body (script k) s) = Raised e /\ is_Exception e = true)
      /\ failing_streak config script (S k) n' (st (run_cycle config (script k) s))
  end.

(** The outcome of the wait between two cycles. *)
Definition wait_result (env : cycle_env) : result control :=
  match sleep env with None => Returned Next | Some e => Raised e end.

(** Whether the cycle reaches a call of [check_appointments] that raises an
    [Exception], given that the switch is not set. *)
Definition primary_fails (env : cycle_env) : bool :=
  match now env, check_appointments env with
  | Returned _, Raised e => is_Exception e
  | _, _ => false
  end.

(** The text sent for the record at position [i] of a cycle (empty when the
    formatter raises and nothing is sent). *)
Definition message_of (env : cycle_env) (i : nat) (appointment : record) : string :=
  match format_appointment_message (found_at env i) appointment with
  | Returned message => message
  | Raised _ => ""
  end.

(** The events of the [for] loop for records that are all formatted and
    delivered. *)
Fixpoint delivered_events (env : cycle_env) (i : nat) (appointments : list record)
  : list event :=
  match appointments with
  | [] => []
  | appointment :: rest =>
      EFormat appointment :: ESend (message_of env i appointment) true
        :: ELogRecord INFO "Notification sent for appointment: " appointment
        :: delivered_events env (S i) rest
  end.

(** The record at position [i] of a cycle is formatted and its message is
    delivered. *)
Definition delivers (env : cycle_env) (i : nat) (appointment : record) : Prop :=
  (exists message,
     format_appointment_message (found_at env i) appointment = Returned message)
  /\ send_appointment env i = None.

(** What a trace shows apart from the log lines. *)
Definition actions (t : list event) : list event :=
  List.filter (fun ev => negb (is_log ev)) t.

(** The trace of the wait between two cycles. *)
Definition wait_trace (config : Config) : list event :=
  [ELog INFO (waiting_msg config); ESleep (check_interval config)].

(** The events of the [for] loop over the appointments: the call of the
    formatter, the send of a formatted message, the log line of a sent
    record. *)
Definition is_appointment_event (ev : event) : bool :=
  match ev with
  | EFormat _ | ELogRecord _ _ _ => true
  | ESend text _ => String.prefix "🎯 **VISA APPOINTMENT AVAILABLE!**" text
  | _ => false
  end.

(** The events of the two checks: the calls and their log lines. *)
Definition is_check_event (ev : event) : bool :=
  match ev with
  | ECheckPrimary | ECheckFallback | ELog _ _ => true
  | _ => false
  end.

(** ** Sample runs *)

Definition config60 : Config := {| check_interval := 60 |}.

(** A cycle in which everything works and nothing is found. *)
Definition idle_cycle : cycle_env :=
  {| now := Returned "2024-05-01 09:00:00 +01";
     check_appointments := Returned [];
     check_availability := Returned [];
     found_at := fun _ => "2024-05-01 09:00:05 +01";
     send_appointment := fun _ => None;
     send_warning := None;
     send_stopped := None;
     sleep := None |}.

Definition with_now (r : result string) (env : cycle_env) : cycle_env :=
  {| now := r;
     check_appointments := check_appointments env;
     check_availability := check_availability env;
     found_at := found_at env;
     send_appointment := send_appointment env;
     send_warning := send_warning env;
     send_stopped := send_stopped env;
     sleep := sleep env |}.

Definition with_check_appointments (r : result (list record)) (env : cycle_env) : cycle_env :=
  {| now := now env;
     check_appointments := r;
     check_availability := check_availability env;
     found_at := found_at env;
     send_appointment := send_appointment env;
     send_warning := send_warning env;
     send_stopped := send_stopped env;
     sleep := sleep env |}.

Definition with_send_appointment (f : nat -> option exn) (env : cycle_env) : cycle_env :=
  {| now := now env;
     check_appointments := check_appointments env;
     check_availability := check_availability env;
     found_at := found_at env;
     send_appointment := f;
     send_warning := send_warning env;
     send_stopped := send_stopped env;
     sleep := sleep env |}.

Definition with_send_warning (o : option exn) (env : cycle_env) : cycle_env :=
  {| now := now env;
     check_appointments := check_appointments env;
     check_availability := check_availability env;
     found_at := found_at env;
     send_appointment := send_appointment env;
     send_warning := o;
     send_stopped := send_stopped env;
     sleep := sleep env |}.

Definition boom : exn := Exn ExceptionK "boom".
Definition telegram_down : exn := Exn ExceptionK "telegram down".

(** A cycle whose body raises at once: the clock call fails. *)
Definition failing_cycle : cycle_env := with_now (Raised boom) idle_cycle.

(** A failing cycle in which the notifier is down as well. *)
Definition unreachable_cycle : cycle_env :=
  with_send_warning (Some telegram_down) failing_cycle.

(** Two failing cycles, then one in which the notifier is down too. *)
Definition notifier_breaks_at_third (k : nat) : cycle_env :=
  if (k =? 2)%nat then unreachable_cycle else failing_cycle.

Definition slot (date time : string) : record :=
  {[ "date" := PyStr date; "time" := PyStr time ]}.

Definition morning : record := slot "2024-05-01" "09:00".
Definition noon : record := slot "2024-05-01" "12:00".
Definition evening : record := slot "2024-05-02" "17:30".

(** The primary method finds one slot. *)
Definition found_cycle : cycle_env :=
  with_check_appointments (Returned [morning]) idle_cycle.

(** The primary method finds nothing and the enhanced one is down. *)
Definition fallback_down_cycle : cycle_env :=
  with_check_availability (Raised (Exn ExceptionK "enhanced down")) idle_cycle.

(** The primary method is down. *)
Definition primary_down_cycle : cycle_env :=
  with_check_appointments (Raised (Exn ExceptionK "primary down")) idle_cycle.

(** Three slots are found and the send for the second one fails. *)
Definition second_send_fails_cycle : cycle_env :=
  with_send_appointment (fun i => if (i =? 1)%nat then Some telegram_down else None)
    (with_check_appointments (Returned [morning; noon; evening]) idle_cycle).

(** A process whose start-up works and whose notifier fails from the third
    failing cycle on, also for the critical-error message. *)
Definition doomed_process : process_env :=
  {| keep_alive := None;
     config_init := None;
     notifier_init := None;
     checkers_init := None;
     start_time := "2024-05-01 08:59:00 +01";
     send_started := None;
     send_stopped_by_user := None;
     send_critical := Some telegram_down;
     config := config60;
     script := notifier_breaks_at_third |}.

(** ** Further notions for the formatter and the loop *)

(** The keys [format_appointment_message] reads. *)
Definition known_keys : list string :=
  ["location"; "date"; "time"; "link"; "confidence"; "source"; "note"].

(** The keys read with a default, and that default. *)
Definition default_of (key : string) : option string :=
  if String.eqb key "location" then Some "Italy Visa Center Morocco"
  else if String.eqb key "date" then Some "Not specified"
  else if String.eqb key "time" then Some "Not specified"
  else None.

(** The keys whose line is written only for a truthy value. *)
Definition optional_keys : list string := ["link"; "confidence"; "source"; "note"].


Definition action_line : string :=
  "⚡ **Action Required:** Log in to VFS Global immediately to book this slot!".
Definition website_line : string :=
  "🌐 **Website:** https://visa.vfsglobal.com/mar/fr/ita/dashboard".
Definition title_line : string := "🎯 **VISA APPOINTMENT AVAILABLE!**".

Definition is_sleep (ev : event) : bool :=
  match ev with ESleep _ => true | _ => false end.
Definition is_primary_call (ev : event) : bool :=
  match ev with ECheckPrimary => true | _ => false end.
Definition is_check_call (ev : event) : bool :=
  match ev with ECheckPrimary | ECheckFallback => true | _ => false end.

(** The sends of the [for] loop for records that are all delivered. *)
Fixpoint deliveries (env : cycle_env) (i : nat) (appointments : list record)
  : list event :=
  match appointments with
  | [] => []
  | appointment :: rest =>
      ESend (message_of env i appointment) true :: deliveries env (S i) rest
  end.

(** A state without its [last_check_time]. *)
Definition decisive (s : loop_state) : nat * bool :=
  (consecutive_errors s, use_enhanced_method s).

(** The events of the error handler on the cycle that breaks, [n] being the
    value the counter reaches. *)
Definition stopping_events (n : nat) (e : exn) : list event :=
  [ELog ERROR (error_msg n e);
   ESend (warning_text (error_msg n e)) true;
   ELog CRITICAL stopping_msg;
   ESend (stopped_text stopping_msg) true].

Definition stopped_by_user_text : string := "🛑 VFS Monitor stopped by user".

(** Two runs agree: same result, same trace, same counter and switch. *)
Definition agree {A} (x y : result A * loop_state * list event) : Prop :=
  res x = res y /\ tr x = tr y /\ decisive (st x) = decisive (st y).

(** The check calls of a cycle that starts with the switch at [enhanced]. *)
Definition check_calls (env : cycle_env) (enhanced : bool) : list event :=
  match now env with
  | Raised _ => []
  | Returned _ =>
      if enhanced then [ECheckFallback]
      else match check_appointments env with
           | Returned (_ :: _) => [ECheckPrimary]
           | Returned [] => [ECheckPrimary; ECheckFallback]
           | Raised e =>
               if is_Exception e then [ECheckPrimary; ECheckFallback]
               else [ECheckPrimary]
           end
  end.

(** More sample runs. *)

Definition interrupt : exn := Exn KeyboardInterruptK "".

Definition with_sleep (o : option exn) (env : cycle_env) : cycle_env :=
  {| now := now env;
     check_appointments := check_appointments env;
     check_availability := check_availability env;
     found_at := found_at env;
     send_appointment := send_appointment env;
     send_warning := send_warning env;
     send_stopped := send_stopped env;
     sleep := o |}.

(** The user interrupts the wait after the second cycle. *)
Definition interrupted_at_second (k : nat) : cycle_env :=
  if (k =? 1)%nat then with_sleep (Some interrupt) idle_cycle else idle_cycle.

Definition interrupted_process : process_env :=
  {| keep_alive := None;
     config_init := None;
     notifier_init := None;
     checkers_init := None;
     start_time := "2024-05-01 08:59:00 +01";
     send_started := None;
     send_stopped_by_user := None;
     send_critical := None;
     config := config60;
     script := interrupted_at_second |}.

(** [Config()] raises: nothing is constructed. *)
Definition unconfigured_process : process_env :=
  {| keep_alive := None;
     config_init := Some (Exn ExceptionK "missing TELEGRAM_BOT_TOKEN");
     notifier_init := None;
     checkers_init := None;
     start_time := "2024-05-01 08:59:00 +01";
     send_started := None;
     send_stopped_by_user := None;
     send_critical := None;
     config := config60;
     script := fun _ => idle_cycle |}.

(** A record whose confidence is a number. *)
Definition scored : record := {[ "date" := PyStr "2024-05-03"; "confidence" := PyInt 85 ]}.

(** Three slots are found and the second one cannot be formatted. *)
Definition second_unformattable_cycle : cycle_env :=
  with_check_appointments (Returned [morning; scored; evening]) idle_cycle.

(** The primary method finds nothing, the enhanced one two slots. *)
Definition enhanced_finds_cycle : cycle_env :=
  with_check_availability (Returned [noon; evening]) idle_cycle.

(** * Properties *)

Local Open Scope list_scope.

(** ** Running the steps of a cycle *)

(** The five ways through the error handler, by its run equation [run]:
    below 3, warning not delivered, warning delivered below 5, stop message
    not delivered, stop message delivered. *)
Ltac handler_cases run env :=
  rewrite run; cbv zeta;
  destruct (3 <=? _)%nat; [|reflexivity];
  destruct (send_warning env); [reflexivity|];
  destruct (5 <=? _)%nat; [|reflexivity];
  destruct (send_stopped env); reflexivity.

Section Steps.

Variable config : Config.
Variable env : cycle_env.

Lemma primary_step_run (s : loop_state) :
  primary_step env s =
  if use_enhanced_method s then (Returned [], s, [])
  else match check_appointments env with
       | Returned l => (Returned l, s, [ECheckPrimary])
       | Raised e =>
           if is_Exception e
           then (Returned [], set_use_enhanced_method true s,
                 [ECheckPrimary; ELog WARNING (primary_failed_msg e);
                  ELog INFO "Switching to enhanced monitoring method"])
           else (Raised e, s, [ECheckPrimary])
       end.
Proof.
  unfold primary_step, bind, gets, try_except_Exception, emit, call.
  destruct (use_enhanced_method s); simpl; [reflexivity|].
  destruct (check_appointments env) as [l|e]; [reflexivity|].
  destruct (is_Exception e); reflexivity.
Qed.

Lemma fallback_step_run (appointments : list record) (s : loop_state) :
  fallback_step env appointments s =
  if use_enhanced_method s || negb (nonempty appointments) then
    match check_availability env with
    | Returned [] => (Returned appointments, s, [ECheckFallback])
    | Returned (a :: l) =>
        (Returned (appointments ++ a :: l)%list, s,
         [ECheckFallback; ELog INFO "Enhanced method detected potential appointments"])
    | Raised e =>
        if is_Exception e
        then (Returned appointments, s, [ECheckFallback; ELog ERROR (enhanced_failed_msg e)])
        else (Raised e, s, [ECheckFallback])
    end
  else (Returned appointments, s, []).
Proof.
  unfold fallback_step, bind, gets, try_except_Exception, emit, call.
  destruct (use_enhanced_method s || negb (nonempty appointments)); simpl; [|reflexivity].
  destruct (check_availability env) as [[|a l]|e]; try reflexivity.
  destruct (is_Exception e); reflexivity.
Qed.

Lemma wait_for_next_check_run (s : loop_state) :
  wait_for_next_check config env s =
  (outcome (sleep env), s,
   wait_trace config).
Proof.
  unfold wait_for_next_check, bind, log, emit, call, outcome.
  destruct (sleep env); reflexivity.
Qed.

Lemma after_try_run (c : control) (s : loop_state) :
  after_try config env c s =
  match c with
  | Break => (Returned Break, s, [])
  | Next =>
      match sleep env with
      | None => (Returned Next, s, wait_trace config)
      | Some e => (Raised e, s, wait_trace config)
      end
  end.
Proof.
  destruct c; [|reflexivity].
  unfold after_try, bind. rewrite wait_for_next_check_run.
  unfold outcome. destruct (sleep env); reflexivity.
Qed.

Lemma error_handler_run (e : exn) (s : loop_state) :
  let n := consecutive_errors s + 1 in
  let s1 := set_consecutive_errors n s in
  let logged := ELog ERROR (error_msg n e) in
  let warned := ESend (warning_text (error_msg n e)) in
  error_handler env e s =
  if (3 <=? n)%nat then
    match send_warning env with
    | Some e' => (Raised e', s1, [logged; warned false])
    | None =>
        if (5 <=? n)%nat then
          match send_stopped env with
          | Some e' =>
              (Raised e', s1,
               [logged; warned true; ELog CRITICAL stopping_msg;
                ESend (stopped_text stopping_msg) false])
          | None =>
              (Returned Break, s1,
               [logged; warned true; ELog CRITICAL stopping_msg;
                ESend (stopped_text stopping_msg) true])
          end
        else (Returned Next, s1, [logged; warned true])
    end
  else (Returned Next, s1, [logged]).
Proof.
  intros n s1 logged warned.
  unfold error_handler, bind, modify, gets, log, emit, send_message, ret,
    max_consecutive_errors.
  cbn [consecutive_errors set_consecutive_errors]. fold n.
  destruct (3 <=? n)%nat eqn:H3.
  - destruct (send_warning env); [reflexivity|].
    destruct (5 <=? n)%nat; [|reflexivity].
    destruct (send_stopped env); reflexivity.
  - assert ((5 <=? n)%nat = false) as ->; [|reflexivity].
    apply Nat.leb_gt. apply Nat.leb_gt in H3. lia.
Qed.

Lemma collect_appointments_run (s : loop_state) :
  collect_appointments env s =
  match primary_step env s with
  | (Returned appointments, s1, t1) =>
      (res (fallback_step env appointments s1),
       st (fallback_step env appointments s1),
       t1 ++ tr (fallback_step env appointments s1))
  | (Raised e, s1, t1) => (Raised e, s1, t1)
  end.
Proof.
  unfold collect_appointments, bind.
  destruct (primary_step env s) as [[[l|e] s1] t1]; [|reflexivity].
  destruct (fallback_step env l s1) as [[r s2] t2]; reflexivity.
Qed.

Lemma notify_each_cons (a : record) (l : list record) (i : nat) (s : loop_state) :
  notify_each env i (a :: l) s =
  match format_appointment_message (found_at env i) a with
  | Raised e => (Raised e, s, [EFormat a])
  | Returned message =>
      match send_appointment env i with
      | Some e => (Raised e, s, [EFormat a; ESend message false])
      | None =>
          (res (notify_each env (S i) l s), st (notify_each env (S i) l s),
           EFormat a :: ESend message true
             :: ELogRecord INFO "Notification sent for appointment: " a
             :: tr (notify_each env (S i) l s))
      end
  end.
Proof.
  cbn [notify_each]. unfold bind, emit, call, send_message.
  destruct (format_appointment_message (found_at env i) a) as [m|e]; [|reflexivity].
  destruct (send_appointment env i); [reflexivity|].
  destruct (notify_each env (S i) l s) as [[r s2] t2]; reflexivity.
Qed.

Lemma notify_each_st (l : list record) (i : nat) (s : loop_state) :
  st (notify_each env i l s) = s.
Proof.
  revert i; induction l as [|a l IH]; intros i; [reflexivity|].
  rewrite notify_each_cons.
  destruct (format_appointment_message _ a); [|reflexivity].
  destruct (send_appointment env i); [reflexivity|]. apply IH.
Qed.

Lemma format_starts_with_title (t : string) (a : record) (m : string) :
  format_appointment_message t a = Returned m ->
  String.prefix "🎯 **VISA APPOINTMENT AVAILABLE!**" m = true.
Proof.
  unfold format_appointment_message.
  destruct (confidence_line a); [|discriminate].
  intros [= <-]. reflexivity.
Qed.

Lemma notify_each_events (l : list record) (i : nat) (s : loop_state) :
  forallb is_appointment_event (tr (notify_each env i l s)) = true.
Proof.
  revert i; induction l as [|a l IH]; intros i; [reflexivity|].
  rewrite notify_each_cons.
  destruct (format_appointment_message _ a) as [m|e] eqn:Hm; [|reflexivity].
  apply format_starts_with_title in Hm.
  destruct (send_appointment env i); cbn; rewrite Hm; [reflexivity|]. apply IH.
Qed.

Lemma notify_appointments_run (appointments : list record) (s : loop_state) :
  notify_appointments env appointments s =
  match appointments with
  | [] => (Returned tt, s, [ELog INFO "No appointments available"])
  | _ :: _ =>
      (res (notify_each env 0 appointments s),
       st (notify_each env 0 appointments s),
       ELog INFO (found_msg (length appointments))
         :: tr (notify_each env 0 appointments s))
  end.
Proof.
  destruct appointments as [|a l]; [reflexivity|].
  unfold notify_appointments, bind, log, emit. cbn [nonempty].
  destruct (notify_each env 0 (a :: l) s) as [[r s2] t2]; reflexivity.
Qed.

Lemma cycle_body_run (s : loop_state) :
  cycle_body env s =
  match now env with
  | Raised e => (Raised e, s, [])
  | Returned current_time =>
      match collect_appointments env s with
      | (Raised e, s1, t1) => (Raised e, s1, ELog INFO (checking_msg current_time) :: t1)
      | (Returned appointments, s1, t1) =>
          match notify_appointments env appointments s1 with
          | (Raised e, s2, t2) =>
              (Raised e, s2, ELog INFO (checking_msg current_time) :: t1 ++ t2)
          | (Returned _, s2, t2) =>
              (Returned tt,
               set_consecutive_errors 0 (set_last_check_time current_time s2),
               ELog INFO (checking_msg current_time) :: t1 ++ t2)
          end
      end
  end.
Proof.
  unfold cycle_body, bind, call, log, emit, modify.
  destruct (now env) as [ct|e]; [|reflexivity].
  destruct (collect_appointments env s) as [[[l|e] s1] t1]; [|reflexivity].
  destruct (notify_appointments env l s1) as [[[u|e] s2] t2]; simpl;
    rewrite ?app_nil_r; reflexivity.
Qed.

Lemma run_cycle_run (s : loop_state) :
  run_cycle config env s =
  match cycle_body env s with
  | (Returned _, s1, t1) =>
      (res (after_try config env Next s1), s1, t1 ++ tr (after_try config env Next s1))
  | (Raised e, s1, t1) =>
      if is_Exception e then
        match error_handler env e s1 with
        | (Returned c, s2, t2) =>
            (res (after_try config env c s2), s2,
             t1 ++ t2 ++ tr (after_try config env c s2))
        | (Raised e', s2, t2) => (Raised e', s2, t1 ++ t2)
        end
      else (Raised e, s1, t1)
  end.
Proof.
  unfold run_cycle, bind, try_except_Exception, ret.
  destruct (cycle_body env s) as [[[u|e] s1] t1].
  - rewrite app_nil_r, after_try_run. destruct (sleep env); reflexivity.
  - destruct (is_Exception e); [|reflexivity].
    destruct (error_handler env e s1) as [[[c|e'] s2] t2]; [|reflexivity].
    rewrite after_try_run. destruct c; [destruct (sleep env)|];
      cbn [res st tr fst snd]; rewrite <- ?app_assoc; reflexivity.
Qed.

(** *** The state after each step *)

Lemma primary_step_st (s : loop_state) :
  st (primary_step env s) =
  match check_appointments env with
  | Raised e =>
      if negb (use_enhanced_method s) && is_Exception e
      then set_use_enhanced_method true s else s
  | Returned _ => s
  end.
Proof.
  rewrite primary_step_run.
  destruct (use_enhanced_method s), (check_appointments env) as [l|e];
    try reflexivity.
  destruct (is_Exception e); reflexivity.
Qed.

Lemma fallback_step_st (l : list record) (s : loop_state) :
  st (fallback_step env l s) = s.
Proof.
  rewrite fallback_step_run.
  destruct (use_enhanced_method s || negb (nonempty l)); [|reflexivity].
  destruct (check_availability env) as [[|a l']|e]; try reflexivity.
  destruct (is_Exception e); reflexivity.
Qed.

Lemma collect_appointments_st (s : loop_state) :
  st (collect_appointments env s) = st (primary_step env s).
Proof.
  rewrite collect_appointments_run.
  destruct (primary_step env s) as [[[l|e] s1] t1]; [|reflexivity].
  apply fallback_step_st.
Qed.

Lemma notify_appointments_st (l : list record) (s : loop_state) :
  st (notify_appointments env l s) = s.
Proof.
  rewrite notify_appointments_run. destruct l; [reflexivity|].
  apply notify_each_st.
Qed.

Lemma cycle_body_st (s : loop_state) :
  st (cycle_body env s) =
  match now env with
  | Raised _ => s
  | Returned current_time =>
      match res (cycle_body env s) with
      | Returned _ =>
          set_consecutive_errors 0
            (set_last_check_time current_time (st (primary_step env s)))
      | Raised _ => st (primary_step env s)
      end
  end.
Proof.
  rewrite cycle_body_run. destruct (now env) as [ct|e]; [|reflexivity].
  rewrite <- collect_appointments_st.
  destruct (collect_appointments env s) as [[[l|e] s1] t1]; [|reflexivity].
  pose proof (notify_appointments_st l s1) as Hn.
  destruct (notify_appointments env l s1) as [[[u|e] s2] t2];
    cbn in Hn |- *; subst s2; reflexivity.
Qed.

Lemma error_handler_st (e : exn) (s : loop_state) :
  st (error_handler env e s) = set_consecutive_errors (consecutive_errors s + 1) s.
Proof.
  handler_cases error_handler_run env.
Qed.

Lemma error_handler_res (e : exn) (s : loop_state) :
  res (error_handler env e s) =
  let n := consecutive_errors s + 1 in
  if (3 <=? n)%nat then
    match send_warning env with
    | Some e' => Raised e'
    | None =>
        if (5 <=? n)%nat then
          match send_stopped env with
          | Some e' => Raised e'
          | None => Returned Break
          end
        else Returned Next
    end
  else Returned Next.
Proof.
  handler_cases error_handler_run env.
Qed.

Lemma after_try_res (c : control) (s : loop_state) :
  res (after_try config env c s) =
  match c with Break => Returned Break | Next => wait_result env end.
Proof.
  rewrite after_try_run. unfold wait_result.
  destruct c; [destruct (sleep env)|]; reflexivity.
Qed.

Lemma run_cycle_st (s : loop_state) :
  st (run_cycle config env s) =
  match res (cycle_body env s) with
  | Returned _ => st (cycle_body env s)
  | Raised e =>
      if is_Exception e
      then set_consecutive_errors (consecutive_errors (st (cycle_body env s)) + 1)
             (st (cycle_body env s))
      else st (cycle_body env s)
  end.
Proof.
  rewrite run_cycle_run.
  destruct (cycle_body env s) as [[[u|e] s1] t1]; [reflexivity|].
  cbn [res st fst snd]. destruct (is_Exception e); [|reflexivity].
  rewrite <- (error_handler_st e).
  destruct (error_handler env e s1) as [[[c|e'] s2] t2]; reflexivity.
Qed.

Lemma run_cycle_res (s : loop_state) :
  res (run_cycle config env s) =
  match res (cycle_body env s) with
  | Returned _ => wait_result env
  | Raised e =>
      if is_Exception e then
        match res (error_handler env e (st (cycle_body env s))) with
        | Returned c => res (after_try config env c (st (cycle_body env s)))
        | Raised e' => Raised e'
        end
      else Raised e
  end.
Proof.
  rewrite run_cycle_run.
  destruct (cycle_body env s) as [[[u|e] s1] t1].
  - apply after_try_res.
  - cbn [res st fst snd]. destruct (is_Exception e); [|reflexivity].
    destruct (error_handler env e s1) as [[[c|e'] s2] t2]; [|reflexivity].
    cbn [res fst]. rewrite !after_try_res. reflexivity.
Qed.

(** The switch after a cycle: set before, or set by a failing primary
    method. *)
Lemma run_cycle_use_enhanced_method (s : loop_state) :
  use_enhanced_method (st (run_cycle config env s)) =
  use_enhanced_method s || primary_fails env.
Proof.
  assert (use_enhanced_method (st (cycle_body env s)) =
          use_enhanced_method s || primary_fails env) as Hbody.
  { rewrite cycle_body_st, primary_step_st. unfold primary_fails.
    destruct (now env) as [ct|e]; [|rewrite orb_false_r; reflexivity].
    destruct (res (cycle_body env s)), (check_appointments env) as [l|e'];
      cbn; rewrite ?orb_false_r; try reflexivity;
      destruct (use_enhanced_method s) eqn:Hs, (is_Exception e'); cbn; auto. }
  rewrite run_cycle_st.
  destruct (res (cycle_body env s)) as [u|e]; [exact Hbody|].
  destruct (is_Exception e); exact Hbody.
Qed.

End Steps.

(** ** The enhanced method is skipped when the primary one finds something *)

Lemma appointment_events_no_fallback (t : list event) :
  forallb is_appointment_event t = true -> existsb is_fallback_call t = false.
Proof.
  induction t as [|ev t IH]; [reflexivity|]. cbn [forallb existsb].
  intros [Hev Ht]%andb_prop. rewrite (IH Ht), orb_false_r.
  destruct ev; first [reflexivity | discriminate].
Qed.

Lemma error_handler_no_fallback (env : cycle_env) (e : exn) (s : loop_state) :
  existsb is_fallback_call (tr (error_handler env e s)) = false.
Proof.
  handler_cases error_handler_run env.
Qed.

Lemma after_try_no_fallback config env c s :
  existsb is_fallback_call (tr (after_try config env c s)) = false.
Proof.
  rewrite after_try_run. destruct c; [destruct (sleep env)|]; reflexivity.
Qed.

Lemma existsb_false_not_elem (f : event -> bool) (ev : event) (t : list event) :
  f ev = true -> existsb f t = false -> ev ∉ t.
Proof.
  intros Hf Ht Hin. apply list_elem_of_In in Hin.
  assert (existsb f t = true) by (apply existsb_exists; eauto). congruence.
Qed.

(** C4. In a cycle that starts with [use_enhanced_method] false and in which
    [check_appointments] returns a non-empty list, [check_availability] is
    not called: the trace of the cycle holds no [ECheckFallback]. *)
Theorem fallback_not_invoked_after_primary_success
    (config : Config) (env : cycle_env) (s : loop_state)
    (a : record) (l : list record) :
  use_enhanced_method s = false ->
  check_appointments env = Returned (a :: l) ->
  ECheckFallback ∉ tr (run_cycle config env s).
Proof.
  intros Hflag Hprimary.
  apply (existsb_false_not_elem is_fallback_call); [reflexivity|].
  assert (collect_appointments env s = (Returned (a :: l), s, [ECheckPrimary])) as Hcollect.
  { rewrite collect_appointments_run, primary_step_run, Hflag, Hprimary.
    rewrite fallback_step_run, Hflag. reflexivity. }
  assert (existsb is_fallback_call (tr (cycle_body env s)) = false) as Hbody.
  { rewrite cycle_body_run. destruct (now env) as [ct|e]; [|reflexivity].
    rewrite Hcollect, notify_appointments_run.
    pose proof (appointment_events_no_fallback _ (notify_each_events env (a :: l) 0 s)) as Hn.
    destruct (notify_each env 0 (a :: l) s) as [[[u|e] s2] t2]; cbn in Hn |- *; exact Hn. }
  rewrite run_cycle_run.
  destruct (cycle_body env s) as [[[u|e] s1] t1]; cbn [tr snd] in Hbody |- *.
  - rewrite existsb_app, Hbody. apply after_try_no_fallback.
  - destruct (is_Exception e); [|exact Hbody].
    pose proof (error_handler_no_fallback env e s1) as Hh.
    destruct (error_handler env e s1) as [[[c|e'] s2] t2]; cbn [tr snd] in Hh |- *;
      rewrite !existsb_app, Hbody, Hh; [apply after_try_no_fallback | reflexivity].
Qed.

(** ** The loop, cycle after cycle *)

Section Loop.

Variable config : Config.
Variable script : nat -> cycle_env.

Lemma monitoring_loop_S (fuel k : nat) (s : loop_state) :
  monitoring_loop (S fuel) config script k s =
  match run_cycle config (script k) s with
  | (Returned Next, s1, t1) =>
      (res (monitoring_loop fuel config script (S k) s1),
       st (monitoring_loop fuel config script (S k) s1),
       t1 ++ tr (monitoring_loop fuel config script (S k) s1))
  | (Returned Break, s1, t1) => (Returned Broke, s1, t1)
  | (Raised e, s1, t1) => (Raised e, s1, t1)
  end.
Proof.
  cbn [monitoring_loop]. unfold bind at 1.
  destruct (run_cycle config (script k) s) as [[[[|]|e] s1] t1]; try reflexivity.
  - destruct (monitoring_loop fuel config script (S k) s1) as [[r s2] t2]; reflexivity.
  - cbn. rewrite app_nil_r. reflexivity.
Qed.

Lemma cycles_S (k n : nat) (s : loop_state) :
  cycles config script k (S n) s =
  match run_cycle config (script k) s with
  | (Returned Next, s1, t1) =>
      match cycles config script (S k) n s1 with
      | Some (s2, t2) => Some (s2, t1 ++ t2)
      | None => None
      end
  | _ => None
  end.
Proof. reflexivity. Qed.

(** The cycles up to [k + n] are the cycles up to [k] and then [n] more. *)
Lemma cycles_add (k n m : nat) (s : loop_state) :
  cycles config script k (n + m) s =
  match cycles config script k n s with
  | Some (s1, t1) =>
      match cycles config script (k + n) m s1 with
      | Some (s2, t2) => Some (s2, t1 ++ t2)
      | None => None
      end
  | None => None
  end.
Proof.
  revert k s; induction n as [|n IH]; intros k s.
  - cbn [cycles Nat.add]. rewrite Nat.add_0_r.
    destruct (cycles config script k m s) as [[s2 t2]|]; reflexivity.
  - cbn [Nat.add]. rewrite !cycles_S.
    destruct (run_cycle config (script k) s) as [[[[|]|e] s1] t1]; try reflexivity.
    rewrite IH. replace (S k + n) with (k + S n) by lia.
    destruct (cycles config script (S k) n s1) as [[s2 t2]|]; [|reflexivity].
    destruct (cycles config script (k + S n) m s2) as [[s3 t3]|]; [|reflexivity].
    rewrite app_assoc. reflexivity.
Qed.

(** A loop that gets through [n] cycles goes on from the state they leave. *)
Lemma monitoring_loop_cycles (fuel k n : nat) (s s1 : loop_state) (t1 : list event) :
  cycles config script k n s = Some (s1, t1) ->
  monitoring_loop (n + fuel) config script k s =
  (res (monitoring_loop fuel config script (k + n) s1),
   st (monitoring_loop fuel config script (k + n) s1),
   t1 ++ tr (monitoring_loop fuel config script (k + n) s1)).
Proof.
  revert k s s1 t1; induction n as [|n IH]; intros k s s1 t1.
  - cbn [cycles Nat.add]. intros [= <- <-]. rewrite Nat.add_0_r.
    destruct (monitoring_loop fuel config script k s) as [[r s2] t2]; reflexivity.
  - rewrite cycles_S. cbn [Nat.add]. rewrite monitoring_loop_S.
    destruct (run_cycle config (script k) s) as [[[[|]|e] s2] t2]; try discriminate.
    destruct (cycles config script (S k) n s2) as [[s3 t3]|] eqn:Hc; [|discriminate].
    intros [= <- <-]. rewrite (IH _ _ _ _ Hc).
    replace (S k + n) with (k + S n) by lia.
    cbn [res st tr fst snd]. rewrite app_assoc. reflexivity.
Qed.

End Loop.

(** ** The switch to the enhanced method *)

Lemma cycles_use_enhanced_method config script (n k : nat) (s s' : loop_state)
    (t : list event) :
  cycles config script k n s = Some (s', t) ->
  use_enhanced_method s = true -> use_enhanced_method s' = true.
Proof.
  revert k s s' t; induction n as [|n IH]; intros k s s' t.
  - cbn. intros [= <- <-]. auto.
  - rewrite cycles_S. intros Hc Hs.
    pose proof (run_cycle_use_enhanced_method config (script k) s) as Hflag.
    rewrite Hs in Hflag.
    destruct (run_cycle config (script k) s) as [[[[|]|e] s1] t1]; try discriminate.
    destruct (cycles config script (S k) n s1) as [[s2 t2]|] eqn:Hrest; [|discriminate].
    injection Hc as <- <-. eapply IH; [exact Hrest | exact Hflag].
Qed.

Lemma state_before_cycles config script (k : nat) (s : loop_state) :
  state_before config script k = Some s ->
  exists t, cycles config script 0 k initial_state = Some (s, t).
Proof.
  unfold state_before.
  destruct (cycles config script 0 k initial_state) as [[s1 t1]|]; [|discriminate].
  cbn. intros [= <-]. eauto.
Qed.

(** C3. [use_enhanced_method] starts false.  A cycle in which
    [check_appointments] raises an [Exception] sets it, every later cycle of
    the run starts with it set, and no cycle that starts with it set ends
    with it cleared. *)
Theorem use_enhanced_method_one_way
    (config : Config) (script : nat -> cycle_env) (k : nat) (s : loop_state)
    (current_time : string) (e : exn) :
  state_before config script k = Some s ->
  use_enhanced_method s = false ->
  now (script k) = Returned current_time ->
  check_appointments (script k) = Raised e ->
  is_Exception e = true ->
  use_enhanced_method initial_state = false
  /\ use_enhanced_method (st (run_cycle config (script k) s)) = true
  /\ (forall j s', k < j -> state_before config script j = Some s' ->
        use_enhanced_method s' = true)
  /\ (forall env s0, use_enhanced_method s0 = true ->
        use_enhanced_method (st (run_cycle config env s0)) = true).
Proof.
  intros Hk Hs Hnow Hprimary He.
  assert (use_enhanced_method (st (run_cycle config (script k) s)) = true) as Hset.
  { rewrite run_cycle_use_enhanced_method. unfold primary_fails.
    rewrite Hnow, Hprimary, He. apply orb_true_r. }
  split; [reflexivity|]. split; [exact Hset|]. split.
  - intros j s' Hlt Hj.
    apply state_before_cycles in Hk as [t Hk], Hj as [t' Hj].
    replace j with (k + S (j - S k)) in Hj by lia.
    rewrite cycles_add, Hk, cycles_S in Hj. cbn [Nat.add] in Hj.
    destruct (run_cycle config (script k) s) as [[[[|]|e1] s1] t1]; try discriminate.
    destruct (cycles config script (S k) (j - S k) s1) as [[s2 t2]|] eqn:Hrest;
      [|discriminate].
    injection Hj as <- _.
    eapply cycles_use_enhanced_method; [exact Hrest | exact Hset].
  - intros env s0 Hs0. rewrite run_cycle_use_enhanced_method, Hs0. reflexivity.
Qed.

(** ** A failure of the enhanced method is absorbed *)

Section FallbackFailure.

Variable config : Config.
Variable env : cycle_env.
Variable e : exn.
Hypothesis fallback_raises : check_availability env = Raised e.
Hypothesis ordinary : is_Exception e = true.

(** The same cycle, with an enhanced method that finds nothing. *)
Local Abbreviation quiet := (with_check_availability (Returned []) env).

Lemma fallback_step_absorbs (l : list record) (s : loop_state) :
  fallback_step env l s =
  if use_enhanced_method s || negb (nonempty l)
  then (Returned l, s, [ECheckFallback; ELog ERROR (enhanced_failed_msg e)])
  else (Returned l, s, []).
Proof. rewrite fallback_step_run, fallback_raises, ordinary. reflexivity. Qed.

Lemma actions_app (t1 t2 : list event) : actions (t1 ++ t2) = actions t1 ++ actions t2.
Proof. apply List.filter_app. Qed.

Lemma actions_log (lvl : level) (msg : string) (t : list event) :
  actions (ELog lvl msg :: t) = actions t.
Proof. reflexivity. Qed.

Lemma notify_each_quiet (l : list record) (i : nat) (s : loop_state) :
  notify_each quiet i l s = notify_each env i l s.
Proof.
  revert i; induction l as [|a l IH]; intros i; [reflexivity|].
  rewrite !notify_each_cons, IH. reflexivity.
Qed.

Lemma notify_appointments_quiet (l : list record) (s : loop_state) :
  notify_appointments quiet l s = notify_appointments env l s.
Proof. rewrite !notify_appointments_run, notify_each_quiet. reflexivity. Qed.

Lemma collect_appointments_absorbs (s : loop_state) :
  res (collect_appointments env s) = res (collect_appointments quiet s)
  /\ st (collect_appointments env s) = st (collect_appointments quiet s)
  /\ actions (tr (collect_appointments env s)) = actions (tr (collect_appointments quiet s)).
Proof.
  rewrite !collect_appointments_run.
  change (primary_step quiet s) with (primary_step env s).
  destruct (primary_step env s) as [[[l|e'] s1] t1]; [|auto].
  rewrite fallback_step_absorbs, (fallback_step_run quiet).
  cbn [check_availability with_check_availability].
  destruct (use_enhanced_method s1 || negb (nonempty l)); cbn [res st tr fst snd];
    rewrite !actions_app; auto.
Qed.

Lemma cycle_body_absorbs (s : loop_state) :
  res (cycle_body env s) = res (cycle_body quiet s)
  /\ st (cycle_body env s) = st (cycle_body quiet s)
  /\ actions (tr (cycle_body env s)) = actions (tr (cycle_body quiet s)).
Proof.
  rewrite !cycle_body_run. change (now quiet) with (now env).
  destruct (now env) as [ct|e']; [|auto].
  destruct (collect_appointments_absorbs s) as (Hr & Hs & Ht).
  destruct (collect_appointments env s) as [[r1 s1] t1],
           (collect_appointments quiet s) as [[r2 s2] t2].
  cbn [res st tr fst snd] in Hr, Hs, Ht. subst r2 s2.
  destruct r1 as [l|e']; [|cbn [res st tr fst snd]; rewrite !actions_log, Ht; auto].
  rewrite notify_appointments_quiet.
  destruct (notify_appointments env l s1) as [[[u|e'] s3] t3];
    cbn [res st tr fst snd]; rewrite !actions_log, !actions_app, Ht; auto.
Qed.

Lemma run_cycle_absorbs (s : loop_state) :
  res (run_cycle config env s) = res (run_cycle config quiet s)
  /\ st (run_cycle config env s) = st (run_cycle config quiet s)
  /\ actions (tr (run_cycle config env s)) = actions (tr (run_cycle config quiet s)).
Proof.
  rewrite !run_cycle_run.
  destruct (cycle_body_absorbs s) as (Hr & Hs & Ht).
  destruct (cycle_body env s) as [[r1 s1] t1], (cycle_body quiet s) as [[r2 s2] t2].
  cbn [res st tr fst snd] in Hr, Hs, Ht. subst r2 s2.
  change (after_try config quiet) with (after_try config env).
  change (error_handler quiet) with (error_handler env).
  destruct r1 as [u|e'].
  - cbn [res st tr fst snd]. rewrite !actions_app, Ht. auto.
  - destruct (is_Exception e'); [|auto].
    destruct (error_handler env e' s1) as [[[c|e''] s3] t3];
      cbn [res st tr fst snd]; rewrite !actions_app, Ht; auto.
Qed.

End FallbackFailure.

Lemma completed_cycle_resets (config : Config) (env : cycle_env) (s : loop_state) :
  res (cycle_body env s) = Returned tt ->
  consecutive_errors (st (run_cycle config env s)) = 0.
Proof.
  intros Hres. rewrite run_cycle_st, Hres, cycle_body_st, Hres.
  destruct (now env) as [ct|e] eqn:Hnow; [reflexivity|].
  rewrite cycle_body_run, Hnow in Hres. discriminate.
Qed.

(** C5. When [check_availability] raises an [Exception], the step that
    calls it still returns the records collected so far and leaves the state
    as it is; the whole cycle ends with the result, the state (so the error
    counter) and the actions it would have had if the enhanced method had
    found nothing.  Whatever the enhanced method did, a cycle whose body
    completes leaves [consecutive_errors] at 0. *)
Theorem fallback_failure_not_counted
    (config : Config) (env : cycle_env) (s : loop_state) (e : exn) :
  check_availability env = Raised e ->
  is_Exception e = true ->
  (forall l s1, res (fallback_step env l s1) = Returned l /\ st (fallback_step env l s1) = s1)
  /\ res (run_cycle config env s)
     = res (run_cycle config (with_check_availability (Returned []) env) s)
  /\ st (run_cycle config env s)
     = st (run_cycle config (with_check_availability (Returned []) env) s)
  /\ actions (tr (run_cycle config env s))
     = actions (tr (run_cycle config (with_check_availability (Returned []) env) s))
  /\ (res (cycle_body env s) = Returned tt ->
      consecutive_errors (st (run_cycle config env s)) = 0)
  /\ (forall env' s', res (cycle_body env' s') = Returned tt ->
        consecutive_errors (st (run_cycle config env' s')) = 0).
Proof.
  intros Hraise He.
  destruct (run_cycle_absorbs config env e Hraise He s) as (Hr & Hs & Ht).
  split.
  { intros l s1. rewrite (fallback_step_absorbs env e Hraise He).
    destruct (use_enhanced_method s1 || negb (nonempty l)); auto. }
  repeat split; auto using completed_cycle_resets.
Qed.

(** ** A failing send in the error handler *)

Lemma cycle_body_raised (env : cycle_env) (s : loop_state) (e : exn) :
  res (cycle_body env s) = Raised e ->
  consecutive_errors (st (cycle_body env s)) = consecutive_errors s
  /\ last_check_time (st (cycle_body env s)) = last_check_time s.
Proof.
  intros Hres. rewrite cycle_body_st, Hres, primary_step_st.
  destruct (now env); [|auto].
  destruct (check_appointments env) as [l|e']; [auto|].
  destruct (negb (use_enhanced_method s) && is_Exception e'); auto.
Qed.

(** C8. When the body of a cycle raises an [Exception] and the send of the
    warning (counter at 3 or more) or of the stop message (counter at 5 or
    more) raises [e], the cycle raises [e]: the per-cycle handler does not
    catch it, and the loop ends with [e], at whatever value the counter
    has. *)
Theorem handler_send_failure_escapes
    (config : Config) (env : cycle_env) (s : loop_state) (e0 e : exn) :
  res (cycle_body env s) = Raised e0 ->
  is_Exception e0 = true ->
  (3 <= consecutive_errors s + 1 /\ send_warning env = Some e)
  \/ (5 <= consecutive_errors s + 1 /\ send_warning env = None
      /\ send_stopped env = Some e) ->
  res (run_cycle config env s) = Raised e
  /\ consecutive_errors (st (run_cycle config env s)) = consecutive_errors s + 1
  /\ (forall fuel script k, script k = env ->
        res (monitoring_loop (S fuel) config script k s) = Raised e).
Proof.
  intros Hbody He0 Hsend.
  destruct (cycle_body_raised env s e0 Hbody) as [Hcount _].
  assert (res (run_cycle config env s) = Raised e) as Hres.
  { rewrite run_cycle_res, Hbody, He0, error_handler_res, Hcount. cbv zeta.
    destruct Hsend as [[H3 Hw]|(H5 & Hw & Hs)].
    - apply Nat.leb_le in H3. rewrite H3, Hw. reflexivity.
    - assert ((3 <=? consecutive_errors s + 1)%nat = true) as -> by (apply Nat.leb_le; lia).
      apply Nat.leb_le in H5. rewrite Hw, H5, Hs. reflexivity. }
  split; [exact Hres|]. split.
  - rewrite run_cycle_st, Hbody, He0. unfold set_consecutive_errors.
    cbn [consecutive_errors]. rewrite Hcount. reflexivity.
  - intros fuel script k <-. rewrite monitoring_loop_S.
    destruct (run_cycle config (script k) s) as [[[[|]|e'] s1] t1]; try discriminate.
    injection Hres as ->. reflexivity.
Qed.

(** ** A failing send in the loop over the appointments *)

Section Notify.

Variable env : cycle_env.

Lemma notify_each_delivers (pre : list record) (i : nat) (s : loop_state) :
  (forall j r', pre !! j = Some r' -> delivers env (i + j) r') ->
  notify_each env i pre s = (Returned tt, s, delivered_events env i pre).
Proof.
  revert i; induction pre as [|a pre IH]; intros i Hpre; [reflexivity|].
  rewrite notify_each_cons. cbn [delivered_events]. unfold message_of.
  destruct (Hpre 0 a eq_refl) as [[m Hm] Hsend].
  rewrite Nat.add_0_r in Hm, Hsend. rewrite Hm, Hsend, IH; [reflexivity|].
  intros j r' Hj. replace (S i + j) with (i + S j) by lia. apply Hpre. exact Hj.
Qed.

Lemma notify_each_stops (pre : list record) (r : record) (post : list record)
    (i : nat) (s : loop_state) (msg : string) (e : exn) :
  (forall j r', pre !! j = Some r' -> delivers env (i + j) r') ->
  format_appointment_message (found_at env (i + length pre)) r = Returned msg ->
  send_appointment env (i + length pre) = Some e ->
  notify_each env i (pre ++ r :: post) s =
  (Raised e, s, delivered_events env i pre ++ [EFormat r; ESend msg false]).
Proof.
  revert i; induction pre as [|a pre IH]; intros i Hpre Hmsg Hsend.
  - cbn [length app] in *. rewrite Nat.add_0_r in Hmsg, Hsend.
    rewrite notify_each_cons, Hmsg, Hsend. reflexivity.
  - cbn [app]. rewrite notify_each_cons. cbn [delivered_events]. unfold message_of.
    destruct (Hpre 0 a eq_refl) as [[m Hm] Hok].
    rewrite Nat.add_0_r in Hm, Hok. rewrite Hm, Hok.
    cbn [length] in Hmsg, Hsend.
    rewrite IH; [reflexivity| |
      replace (S i + length pre) with (i + S (length pre)) by lia; assumption ..].
    intros j r' Hj. replace (S i + j) with (i + S j) by lia. apply Hpre. exact Hj.
Qed.

Lemma delivered_events_appointment (pre : list record) (i : nat) :
  (forall j r', pre !! j = Some r' -> delivers env (i + j) r') ->
  List.filter is_appointment_event (delivered_events env i pre)
  = delivered_events env i pre.
Proof.
  revert i; induction pre as [|a pre IH]; intros i Hpre; [reflexivity|].
  cbn [delivered_events List.filter is_appointment_event]. unfold message_of.
  destruct (Hpre 0 a eq_refl) as [[m Hm] _]. rewrite Nat.add_0_r in Hm.
  rewrite Hm, (format_starts_with_title _ _ _ Hm), IH; [reflexivity|].
  intros j r' Hj. replace (S i + j) with (i + S j) by lia. apply Hpre. exact Hj.
Qed.

Lemma check_events_no_appointment (t : list event) :
  forallb is_check_event t = true -> List.filter is_appointment_event t = [].
Proof.
  induction t as [|ev t IH]; [reflexivity|]. cbn [forallb List.filter].
  intros [Hev Ht]%andb_prop. rewrite (IH Ht).
  destruct ev; first [reflexivity | discriminate].
Qed.

Lemma collect_appointments_events (s : loop_state) :
  forallb is_check_event (tr (collect_appointments env s)) = true.
Proof.
  rewrite collect_appointments_run, primary_step_run.
  destruct (use_enhanced_method s) eqn:Hflag.
  - rewrite fallback_step_run, Hflag.
    destruct (check_availability env) as [[|a l]|e]; try reflexivity.
    destruct (is_Exception e); reflexivity.
  - destruct (check_appointments env) as [l|e].
    + rewrite fallback_step_run, Hflag. destruct (false || negb (nonempty l)); [|reflexivity].
      destruct (check_availability env) as [[|a' l']|e]; try reflexivity.
      destruct (is_Exception e); reflexivity.
    + destruct (is_Exception e); [|reflexivity].
      rewrite fallback_step_run.
      destruct (check_availability env) as [[|a' l']|e']; try reflexivity.
      destruct (is_Exception e'); reflexivity.
Qed.

Lemma error_handler_no_appointment (e : exn) (s : loop_state) :
  List.filter is_appointment_event (tr (error_handler env e s)) = [].
Proof.
  handler_cases error_handler_run env.
Qed.

Lemma after_try_no_appointment config (c : control) (s : loop_state) :
  List.filter is_appointment_event (tr (after_try config env c s)) = [].
Proof.
  rewrite after_try_run. destruct c; [destruct (sleep env)|]; reflexivity.
Qed.

End Notify.

(** C9. When the send for one record raises an [Exception], the records
    before it having been formatted and delivered, the body of the cycle
    raises at that send: the later records are neither formatted nor sent
    (the appointment events of the whole cycle are those of the earlier
    records and the failed attempt), [last_check_time] keeps its value and
    [consecutive_errors] is one more than before instead of 0. *)
Theorem appointment_send_failure_counts
    (config : Config) (env : cycle_env) (s s1 : loop_state)
    (current_time : string) (t1 : list event)
    (pre : list record) (r : record) (post : list record)
    (msg : string) (e : exn) :
  now env = Returned current_time ->
  collect_appointments env s = (Returned (pre ++ r :: post), s1, t1) ->
  (forall j r', pre !! j = Some r' -> delivers env j r') ->
  format_appointment_message (found_at env (length pre)) r = Returned msg ->
  send_appointment env (length pre) = Some e ->
  is_Exception e = true ->
  cycle_body env s
  = (Raised e, s1,
     ELog INFO (checking_msg current_time) :: t1
       ++ ELog INFO (found_msg (length (pre ++ r :: post)))
       :: delivered_events env 0 pre ++ [EFormat r; ESend msg false])
  /\ List.filter is_appointment_event (tr (run_cycle config env s))
     = delivered_events env 0 pre ++ [EFormat r; ESend msg false]
  /\ consecutive_errors (st (run_cycle config env s)) = consecutive_errors s + 1
  /\ last_check_time (st (run_cycle config env s)) = last_check_time s.
Proof.
  intros Hnow Hcollect Hpre Hmsg Hsend He.
  assert (cycle_body env s
          = (Raised e, s1,
             ELog INFO (checking_msg current_time) :: t1
               ++ ELog INFO (found_msg (length (pre ++ r :: post)))
               :: delivered_events env 0 pre ++ [EFormat r; ESend msg false]))
    as Hbody.
  { rewrite cycle_body_run, Hnow, Hcollect, notify_appointments_run.
    rewrite (notify_each_stops env pre r post 0 s1 msg e Hpre Hmsg Hsend).
    destruct pre; reflexivity. }
  assert (res (cycle_body env s) = Raised e) as Hres by (rewrite Hbody; reflexivity).
  destruct (cycle_body_raised env s e Hres) as [Hcount Htime].
  split; [exact Hbody|]. split; [|split].
  - pose proof (collect_appointments_events env s) as Hchecks.
    rewrite Hcollect in Hchecks. cbn [tr snd] in Hchecks.
    apply check_events_no_appointment in Hchecks.
    assert (List.filter is_appointment_event (tr (cycle_body env s))
            = delivered_events env 0 pre ++ [EFormat r; ESend msg false]) as Hbt.
    { rewrite Hbody. cbn [tr snd List.filter is_appointment_event].
      rewrite List.filter_app, Hchecks. cbn [List.filter is_appointment_event app].
      rewrite List.filter_app, (delivered_events_appointment env pre 0 Hpre).
      cbn [List.filter is_appointment_event].
      rewrite (format_starts_with_title _ _ _ Hmsg). reflexivity. }
    rewrite run_cycle_run.
    destruct (cycle_body env s) as [[[u|e'] s2] t2]; [discriminate|].
    cbn [res st tr fst snd] in Hres, Hbt |- *. injection Hres as ->. rewrite He.
    pose proof (error_handler_no_appointment env e s2) as Hh.
    destruct (error_handler env e s2) as [[[c|e''] s3] t3]; cbn [tr snd] in Hh |- *;
      rewrite !List.filter_app, Hbt, Hh, ?after_try_no_appointment, ?app_nil_r;
      reflexivity.
  - rewrite run_cycle_st, Hres, He. unfold set_consecutive_errors.
    cbn [consecutive_errors]. rewrite Hcount. reflexivity.
  - rewrite run_cycle_st, Hres, He. unfold set_consecutive_errors.
    cbn [last_check_time]. exact Htime.
Qed.

(** ** The error counter and the ways out of a cycle *)

Section Counter.

Variable config : Config.
Variable env : cycle_env.

Lemma run_cycle_consecutive_errors (s : loop_state) :
  consecutive_errors (st (run_cycle config env s)) =
  match res (cycle_body env s) with
  | Returned _ => 0
  | Raised e => if is_Exception e then consecutive_errors s + 1 else consecutive_errors s
  end.
Proof.
  rewrite run_cycle_st.
  destruct (res (cycle_body env s)) as [[]|e] eqn:Hres.
  - rewrite <- (completed_cycle_resets config env s Hres), run_cycle_st, Hres.
    reflexivity.
  - destruct (cycle_body_raised env s e Hres) as [Hcount _].
    destruct (is_Exception e); unfold set_consecutive_errors;
      cbn [consecutive_errors]; rewrite Hcount; reflexivity.
Qed.

Lemma run_cycle_Next (s : loop_state) :
  res (run_cycle config env s) = Returned Next ->
  consecutive_errors (st (run_cycle config env s)) < 5.
Proof.
  rewrite run_cycle_consecutive_errors, run_cycle_res.
  destruct (res (cycle_body env s)) as [[]|e] eqn:Hres; [lia|].
  destruct (cycle_body_raised env s e Hres) as [Hcount _].
  destruct (is_Exception e); [|discriminate].
  rewrite error_handler_res, Hcount. cbv zeta.
  destruct (3 <=? consecutive_errors s + 1)%nat eqn:H3;
    [|intros _; apply Nat.leb_gt in H3; lia].
  destruct (send_warning env); [discriminate|].
  destruct (5 <=? consecutive_errors s + 1)%nat eqn:H5;
    [|intros _; apply Nat.leb_gt in H5; lia].
  destruct (send_stopped env); [discriminate|].
  rewrite after_try_res. discriminate.
Qed.

Lemma run_cycle_Break (s : loop_state) :
  res (run_cycle config env s) = Returned Break <->
  exists e0, res (cycle_body env s) = Raised e0 /\ is_Exception e0 = true
    /\ 5 <= consecutive_errors s + 1
    /\ send_warning env = None /\ send_stopped env = None.
Proof.
  rewrite run_cycle_res.
  destruct (res (cycle_body env s)) as [[]|e] eqn:Hres.
  - split; [|intros (e0 & [=] & _)].
    unfold wait_result. destruct (sleep env); discriminate.
  - destruct (cycle_body_raised env s e Hres) as [Hcount _].
    destruct (is_Exception e) eqn:He;
      [|split; [discriminate | intros (e0 & [= <-] & He0 & _); congruence]].
    rewrite error_handler_res, Hcount. cbv zeta.
    destruct (3 <=? consecutive_errors s + 1)%nat eqn:H3.
    + destruct (send_warning env) as [ew|];
        [split; [discriminate | intros (e0 & _ & _ & _ & [=] & _)]|].
      destruct (5 <=? consecutive_errors s + 1)%nat eqn:H5.
      * destruct (send_stopped env) as [es|];
          [split; [discriminate | intros (e0 & _ & _ & _ & _ & [=])]|].
        rewrite after_try_res. split; [intros _|reflexivity].
        apply Nat.leb_le in H5. eauto 10.
      * rewrite after_try_res. apply Nat.leb_gt in H5.
        split; [|intros (e0 & _ & _ & Hge & _); lia].
        unfold wait_result. destruct (sleep env); discriminate.
    + rewrite after_try_res. apply Nat.leb_gt in H3.
      split; [|intros (e0 & _ & _ & Hge & _); lia].
      unfold wait_result. destruct (sleep env); discriminate.
Qed.

(** An exception leaves the cycle only if it is not an [Exception] and was
    raised in the body, or was raised by a send of the error handler, or by
    the wait. *)
Lemma run_cycle_Raised (s : loop_state) (e : exn) :
  res (run_cycle config env s) = Raised e ->
  (res (cycle_body env s) = Raised e /\ is_Exception e = false)
  \/ (exists e0, res (cycle_body env s) = Raised e0 /\ is_Exception e0 = true
        /\ (send_warning env = Some e \/ send_stopped env = Some e))
  \/ sleep env = Some e.
Proof.
  rewrite run_cycle_res.
  assert (wait_result env = Raised e -> sleep env = Some e) as Hwait.
  { unfold wait_result. destruct (sleep env); [intros [= ->]; reflexivity | discriminate]. }
  destruct (res (cycle_body env s)) as [[]|e0] eqn:Hres; [auto|].
  destruct (is_Exception e0) eqn:He0; [|intros [= <-]; auto].
  rewrite error_handler_res. cbv zeta.
  destruct (3 <=? _)%nat; [|rewrite after_try_res; auto].
  destruct (send_warning env) as [ew|] eqn:Hw; [intros [= <-]; eauto 10|].
  destruct (5 <=? _)%nat; [|rewrite after_try_res; auto].
  destruct (send_stopped env) as [es|] eqn:Hs; [intros [= <-]; eauto 10|].
  rewrite after_try_res. discriminate.
Qed.

End Counter.

Section LoopExits.

Variable config : Config.
Variable script : nat -> cycle_env.

Lemma cycles_consecutive_errors (n k : nat) (s s' : loop_state) (t : list event) :
  cycles config script k n s = Some (s', t) ->
  consecutive_errors s < 5 -> consecutive_errors s' < 5.
Proof.
  revert k s s' t; induction n as [|n IH]; intros k s s' t.
  - cbn. intros [= <- <-]. auto.
  - rewrite cycles_S. intros Hc _.
    pose proof (run_cycle_Next config (script k) s) as Hnext.
    destruct (run_cycle config (script k) s) as [[[[|]|e] s1] t1]; try discriminate.
    destruct (cycles config script (S k) n s1) as [[s2 t2]|] eqn:Hrest; [|discriminate].
    injection Hc as <- <-. eapply IH; [exact Hrest | apply Hnext; reflexivity].
Qed.

Lemma state_before_consecutive_errors (k : nat) (s : loop_state) :
  state_before config script k = Some s -> consecutive_errors s < 5.
Proof.
  intros [t Hk]%state_before_cycles.
  eapply cycles_consecutive_errors; [exact Hk | cbn; lia].
Qed.

Lemma state_before_S (k : nat) (s s1 : loop_state) (t1 : list event) :
  state_before config script k = Some s ->
  run_cycle config (script k) s = (Returned Next, s1, t1) ->
  state_before config script (S k) = Some s1.
Proof.
  intros [t Hk]%state_before_cycles Hrun. unfold state_before.
  replace (S k) with (k + 1) by lia.
  rewrite cycles_add, Hk. cbn [Nat.add cycles]. rewrite Hrun. reflexivity.
Qed.

(** How the loop can end, from the start of any cycle it reaches. *)
Lemma monitoring_loop_exits (fuel k : nat) (s : loop_state) :
  state_before config script k = Some s ->
  match res (monitoring_loop fuel config script k s) with
  | Returned Broke => consecutive_errors (st (monitoring_loop fuel config script k s)) = 5
  | Returned StillRunning => True
  | Raised e =>
      exists j sj, state_before config script j = Some sj
        /\ res (run_cycle config (script j) sj) = Raised e
        /\ ((res (cycle_body (script j) sj) = Raised e /\ is_Exception e = false)
            \/ (exists e0, res (cycle_body (script j) sj) = Raised e0
                  /\ is_Exception e0 = true
                  /\ (send_warning (script j) = Some e \/ send_stopped (script j) = Some e))
            \/ sleep (script j) = Some e)
  end.
Proof.
  revert k s; induction fuel as [|fuel IH]; intros k s Hk; [exact I|].
  rewrite monitoring_loop_S.
  pose proof (state_before_S k s) as Hstep.
  pose proof (run_cycle_Break config (script k) s) as Hbreak.
  pose proof (run_cycle_Raised config (script k) s) as Hraised.
  pose proof (run_cycle_consecutive_errors config (script k) s) as Hcount.
  pose proof (state_before_consecutive_errors k s Hk) as Hlt.
  destruct (run_cycle config (script k) s) as [[[[|]|e] s1] t1] eqn:Hrun.
  - apply (IH (S k) s1). eapply Hstep; [exact Hk | reflexivity].
  - destruct Hbreak as [Hbreak _].
    destruct (Hbreak eq_refl) as (e0 & Hres & He0 & Hge & _).
    cbn [res st fst snd] in Hcount |- *. rewrite Hres, He0 in Hcount. lia.
  - cbn [res fst]. exists k, s. rewrite Hrun. auto.
Qed.

End LoopExits.

(** ** When the warning is sent *)

Lemma prefix_other_first_char (a1 a2 : ascii) (s1 s2 text : string) :
  a1 <> a2 ->
  String.prefix (String a1 s1) text = true ->
  String.prefix (String a2 s2) text = false.
Proof.
  intros Hne. destruct text as [|c text]; [discriminate|]. cbn [String.prefix].
  destruct (ascii_dec a1 c) as [<-|]; [|discriminate].
  destruct (ascii_dec a2 a1) as [->|]; [contradiction|reflexivity].
Qed.

Lemma appointment_events_no_warning (t : list event) :
  forallb is_appointment_event t = true -> List.filter is_warning t = [].
Proof.
  induction t as [|ev t IH]; [reflexivity|]. cbn [forallb List.filter].
  intros [Hev Ht]%andb_prop. rewrite (IH Ht).
  destruct ev; try reflexivity. cbn [is_appointment_event is_warning] in *.
  erewrite prefix_other_first_char; [reflexivity| |exact Hev]. discriminate.
Qed.

Lemma check_events_no_warning (t : list event) :
  forallb is_check_event t = true -> List.filter is_warning t = [].
Proof.
  induction t as [|ev t IH]; [reflexivity|]. cbn [forallb List.filter].
  intros [Hev Ht]%andb_prop. rewrite (IH Ht).
  destruct ev; first [reflexivity | discriminate].
Qed.

Lemma cycle_body_no_warning (env : cycle_env) (s : loop_state) :
  List.filter is_warning (tr (cycle_body env s)) = [].
Proof.
  rewrite cycle_body_run. destruct (now env) as [ct|e]; [|reflexivity].
  pose proof (check_events_no_warning _ (collect_appointments_events env s)) as Hc.
  destruct (collect_appointments env s) as [[[l|e] s1] t1]; cbn [tr snd] in Hc;
    [|cbn [tr snd List.filter is_warning]; exact Hc].
  rewrite notify_appointments_run.
  assert (List.filter is_warning (tr (notify_each env 0 l s1)) = []) as Hn
    by apply appointment_events_no_warning, notify_each_events.
  assert (forall r s2, List.filter is_warning
            (tr (match l with
                 | [] => (Returned tt, s1, [ELog INFO "No appointments available"])
                 | _ :: _ => (r, s2, ELog INFO (found_msg (length l))
                                       :: tr (notify_each env 0 l s1))
                 end : result unit * loop_state * list event)) = []) as Hl
    by (intros; destruct l; [reflexivity | exact Hn]).
  specialize (Hl (res (notify_each env 0 l s1)) (st (notify_each env 0 l s1))).
  destruct (match l with [] => _ | _ :: _ => _ end) as [[[u|e] s2] t2];
    cbn [tr snd List.filter is_warning] in Hl |- *;
    rewrite List.filter_app, Hc, Hl; reflexivity.
Qed.

Lemma error_handler_warnings (env : cycle_env) (e : exn) (s : loop_state) :
  length (List.filter is_warning (tr (error_handler env e s)))
  = if (3 <=? consecutive_errors s + 1)%nat then 1 else 0.
Proof.
  handler_cases error_handler_run env.
Qed.

Lemma after_try_no_warning config env (c : control) (s : loop_state) :
  List.filter is_warning (tr (after_try config env c s)) = [].
Proof.
  rewrite after_try_run. destruct c; [destruct (sleep env)|]; reflexivity.
Qed.

Lemma run_cycle_warnings (config : Config) (env : cycle_env) (s : loop_state) :
  length (List.filter is_warning (tr (run_cycle config env s)))
  = match res (cycle_body env s) with
    | Raised e =>
        if is_Exception e && (3 <=? consecutive_errors s + 1)%nat then 1 else 0
    | Returned _ => 0
    end.
Proof.
  rewrite run_cycle_run.
  pose proof (cycle_body_no_warning env s) as Hbody.
  pose proof (cycle_body_raised env s) as Hraised.
  destruct (cycle_body env s) as [[[u|e] s1] t1]; cbn [res st tr fst snd] in *.
  - rewrite List.filter_app, Hbody, after_try_no_warning. reflexivity.
  - destruct (Hraised e eq_refl) as [Hcount _].
    destruct (is_Exception e); [|cbn [tr snd]; rewrite Hbody; reflexivity].
    pose proof (error_handler_warnings env e s1) as Hh. rewrite Hcount in Hh.
    destruct (error_handler env e s1) as [[[c|e'] s2] t2]; cbn [tr snd] in Hh |- *;
      rewrite !List.filter_app, Hbody, ?after_try_no_warning, ?app_nil_r; exact Hh.
Qed.

(** C1 (as the code has it).  A cycle sends the warning exactly when its body
    raises an [Exception] that takes [consecutive_errors] to 3 or more, and
    then sends it once: so on the 3rd, the 4th and the 5th failing cycle of a
    streak.  A streak of [n] failing cycles that the loop gets through, from
    a counter at [c], leaves the counter at [c + n] and has sent one warning
    for every cycle that took the counter to 3 or more. *)
Theorem warning_on_every_cycle_from_three
    (config : Config) (script : nat -> cycle_env) :
  (forall env s,
     length (List.filter is_warning (tr (run_cycle config env s)))
     = match res (cycle_body env s) with
       | Raised e =>
           if is_Exception e && (3 <=? consecutive_errors s + 1)%nat then 1 else 0
       | Returned _ => 0
       end)
  /\ (forall n k s s' t,
        failing_streak config script k n s ->
        cycles config script k n s = Some (s', t) ->
        consecutive_errors s' = consecutive_errors s + n
        /\ length (List.filter is_warning t)
           = (consecutive_errors s + n - 2) - (consecutive_errors s - 2)).
Proof.
  split; [apply run_cycle_warnings|].
  induction n as [|n IH]; intros k s s' t Hstreak Hc.
  - cbn in Hc. injection Hc as <- <-. cbn. lia.
  - rewrite cycles_S in Hc. destruct Hstreak as [(e & Hres & He) Hrest].
    pose proof (run_cycle_warnings config (script k) s) as Hw.
    pose proof (run_cycle_consecutive_errors config (script k) s) as Hn.
    rewrite Hres, He in Hw, Hn.
    destruct (run_cycle config (script k) s) as [[[[|]|e'] s1] t1]; try discriminate.
    destruct (cycles config script (S k) n s1) as [[s2 t2]|] eqn:Hc2; [|discriminate].
    injection Hc as <- <-. cbn [st tr fst snd] in *.
    destruct (IH _ _ _ _ Hrest Hc2) as [IHn IHw].
    rewrite List.filter_app, length_app, IHw, IHn, Hw, Hn.
    split; [lia|].
    destruct (3 <=? consecutive_errors s + 1)%nat eqn:H3; cbn [andb];
      [apply Nat.leb_le in H3 | apply Nat.leb_gt in H3]; lia.
Qed.

(** C2 (as the code has it).  The loop is left by its [break] only with
    [consecutive_errors] at 5, and a cycle breaks exactly when its body
    raises an [Exception] that takes the counter to 5 and both sends of the
    handler go through; no cycle starts with the counter at 5, and a loop
    that reaches a breaking cycle returns.  Otherwise the loop ends only
    with an exception that leaves a cycle: one that is not an [Exception],
    raised in the body, or one raised by a send of the error handler or by
    the wait. *)
Theorem loop_exits (config : Config) (script : nat -> cycle_env) :
  (forall fuel,
     match res (monitoring_loop fuel config script 0 initial_state) with
     | Returned Broke =>
         consecutive_errors (st (monitoring_loop fuel config script 0 initial_state)) = 5
     | Returned StillRunning => True
     | Raised e =>
         exists j sj, state_before config script j = Some sj
           /\ res (run_cycle config (script j) sj) = Raised e
           /\ ((res (cycle_body (script j) sj) = Raised e /\ is_Exception e = false)
               \/ (exists e0, res (cycle_body (script j) sj) = Raised e0
                     /\ is_Exception e0 = true
                     /\ (send_warning (script j) = Some e
                         \/ send_stopped (script j) = Some e))
               \/ sleep (script j) = Some e)
     end)
  /\ (forall k s, state_before config script k = Some s ->
        consecutive_errors s < 5
        /\ (res (run_cycle config (script k) s) = Returned Break <->
            exists e0, res (cycle_body (script k) s) = Raised e0
              /\ is_Exception e0 = true
              /\ consecutive_errors s + 1 = 5
              /\ send_warning (script k) = None /\ send_stopped (script k) = None))
  /\ (forall k s fuel, state_before config script k = Some s ->
        res (run_cycle config (script k) s) = Returned Break ->
        res (monitoring_loop (k + S fuel) config script 0 initial_state)
        = Returned Broke).
Proof.
  split; [|split].
  - intros fuel. apply monitoring_loop_exits. reflexivity.
  - intros k s Hk.
    pose proof (state_before_consecutive_errors config script k s Hk) as Hlt.
    split; [exact Hlt|]. rewrite run_cycle_Break.
    split; intros (e0 & Hres & He0 & Hn & Hsends); exists e0;
      repeat split; try tauto; lia.
  - intros k s fuel [t Hk]%state_before_cycles Hbreak.
    rewrite (monitoring_loop_cycles config script (S fuel) 0 k _ _ _ Hk).
    cbn [res fst Nat.add]. rewrite monitoring_loop_S.
    destruct (run_cycle config (script k) s) as [[[[|]|e] s1] t1];
      first [discriminate | reflexivity].
Qed.

(** ** The handler of the outer [try] *)

Section TopLevel.

Variable p : process_env.

Lemma startup_returned (s : loop_state) :
  res (startup p s) = Returned tt ->
  notifier_bound p = true /\ st (startup p s) = s.
Proof.
  unfold startup, notifier_bound, bind, call, send_message, outcome.
  destruct (config_init p); [discriminate|].
  destruct (notifier_init p); [discriminate|].
  destruct (checkers_init p); [discriminate|].
  destruct (send_started p); [discriminate|]. auto.
Qed.

Lemma on_exception_run (e : exn) (s : loop_state) :
  notifier_bound p = true ->
  on_exception p e s =
  (Raised e, s,
   [ELog CRITICAL (critical_msg e);
    ESend (critical_text e) (delivered (send_critical p))]).
Proof.
  intros Hbound.
  unfold on_exception, bind, log, emit, try_except_pass, handler_send,
    send_message, call.
  rewrite Hbound. destruct (send_critical p); reflexivity.
Qed.

Lemma main_body_raised (fuel : nat) (e : exn) (s : loop_state) (t : list event) :
  res (startup p initial_state) = Returned tt ->
  monitoring_loop fuel (config p) (script p) 0 initial_state = (Raised e, s, t) ->
  main_body fuel p initial_state = (Raised e, s, tr (startup p initial_state) ++ t).
Proof.
  intros Hstart Hloop. destruct (startup_returned _ Hstart) as [_ Hst].
  unfold main_body, bind.
  destruct (startup p initial_state) as [[[[]|e'] s0] t0]; [|discriminate].
  cbn [st fst snd] in Hst. subst s0. rewrite Hloop. reflexivity.
Qed.

End TopLevel.

(** C7. When an [Exception] leaves the monitoring loop, [main] logs it at
    level CRITICAL, calls [send_message] once with the critical-error text,
    and raises the same exception again, whether that send went through or
    raised; the interpreter then exits with status 1. *)
Theorem top_level_handler_reraises
    (fuel : nat) (p : process_env) (e : exn) (s : loop_state) (t : list event) :
  keep_alive p = None ->
  res (startup p initial_state) = Returned tt ->
  monitoring_loop fuel (config p) (script p) 0 initial_state = (Raised e, s, t) ->
  exn_kind e = ExceptionK ->
  main fuel p initial_state
  = (Raised e, s,
     ELog INFO "Starting VFS Global Visa Appointment Monitor"
       :: (tr (startup p initial_state) ++ t)
       ++ [ELog CRITICAL (critical_msg e);
           ESend (critical_text e) (delivered (send_critical p))])
  /\ exit_status (res (main fuel p initial_state)) = Some 1.
Proof.
  intros Hkeep Hstart Hloop Hkind.
  destruct (startup_returned p _ Hstart) as [Hbound _].
  assert (main fuel p initial_state
          = (Raised e, s,
             ELog INFO "Starting VFS Global Visa Appointment Monitor"
               :: (tr (startup p initial_state) ++ t)
               ++ [ELog CRITICAL (critical_msg e);
                   ESend (critical_text e) (delivered (send_critical p))])) as Hmain.
  { unfold main, bind, call, outcome, log, emit, try_main. rewrite Hkeep.
    rewrite (main_body_raised p fuel e s t Hstart Hloop), Hkind.
    rewrite (on_exception_run p e s Hbound). reflexivity. }
  split; [exact Hmain|].
  rewrite Hmain. unfold exit_status, is_Exception. cbn [res fst]. rewrite Hkind.
  reflexivity.
Qed.

(** ** The formatter *)

Section Contains.

Variable c : ascii.
Variable b : string.
Hypothesis absent : contains (String c "") b = false.

Lemma contains_cons (sub : string) (x : ascii) (s : string) :
  contains sub (String x s) = String.prefix sub (String x s) || contains sub s.
Proof. reflexivity. Qed.

(** A string that [sub] followed by [c] is a prefix of holds [c]. *)
Lemma prefix_holds_last (sub s : string) :
  String.prefix (sub ++ String c "") s = true -> contains (String c "") s = true.
Proof.
  revert s; induction sub as [|z sub IH]; intros [|x s]; simpl; try discriminate.
  - destruct (ascii_dec c x); [intros ->; reflexivity|discriminate].
  - destruct (ascii_dec z x); [|discriminate]. intros H%IH.
    rewrite H. apply orb_true_r.
Qed.

Lemma prefix_absent (sub : string) : String.prefix (sub ++ String c "") b = false.
Proof.
  destruct (String.prefix (sub ++ String c "") b) eqn:H; [|reflexivity].
  apply prefix_holds_last in H. congruence.
Qed.

Lemma prefix_app_absent (sub a : string) :
  String.prefix (sub ++ String c "") (a ++ b) = String.prefix (sub ++ String c "") a.
Proof.
  revert a; induction sub as [|z sub IH]; intros [|x a].
  - apply (prefix_absent "").
  - simpl. destruct (ascii_dec c x); [|reflexivity].
    destruct a, b; reflexivity.
  - apply (prefix_absent (String z sub)).
  - simpl. destruct (ascii_dec z x); [apply IH|reflexivity].
Qed.

End Contains.

Lemma contains_absent (c : ascii) (sub b : string) :
  contains (String c "") b = false -> contains (sub ++ String c "") b = false.
Proof.
  induction b as [|y b IH]; intros Hb.
  - destruct sub; reflexivity.
  - rewrite contains_cons, (prefix_absent c _ Hb).
    rewrite contains_cons in Hb. apply orb_false_elim in Hb as [_ Hb].
    apply IH, Hb.
Qed.

(** An occurrence of a text that ends with [c] lies in [a] when [b] does not
    hold [c]. *)
Lemma contains_app_absent (c : ascii) (sub a b : string) :
  contains (String c "") b = false ->
  contains (sub ++ String c "") (a ++ b) = contains (sub ++ String c "") a.
Proof.
  intros Hb. induction a as [|x a IH].
  - change ("" ++ b)%string with b.
    rewrite (contains_absent c sub b Hb). destruct sub; reflexivity.
  - change (String x a ++ b)%string with (String x (a ++ b)).
    rewrite !contains_cons, IH.
    change (String x (a ++ b)) with (String x a ++ b)%string.
    rewrite (prefix_app_absent c b Hb). reflexivity.
Qed.

Lemma prefix_empty (s : string) : String.prefix "" s = true.
Proof. destruct s; reflexivity. Qed.

Lemma prefix_app_l (sub a b : string) :
  String.prefix sub a = true -> String.prefix sub (a ++ b) = true.
Proof.
  revert a; induction sub as [|z sub IH]; intros a; [intros _; apply prefix_empty|].
  destruct a as [|x a]; simpl; [discriminate|].
  destruct (ascii_dec z x); [apply IH|discriminate].
Qed.

Lemma contains_app_l (sub a b : string) :
  contains sub a = true -> contains sub (a ++ b) = true.
Proof.
  induction a as [|x a IH].
  - destruct sub; [intros _|discriminate].
    change ("" ++ b)%string with b. destruct b; reflexivity.
  - change (String x a ++ b)%string with (String x (a ++ b)).
    rewrite !contains_cons. intros [H|H]%orb_true_iff.
    + change (String x (a ++ b)) with (String x a ++ b)%string.
      rewrite (prefix_app_l _ _ _ H). reflexivity.
    + rewrite (IH H). apply orb_true_r.
Qed.

Lemma string_app_nil_r (s : string) : (s ++ "")%string = s.
Proof.
  induction s as [|x s IH]; [reflexivity|].
  change (String x (s ++ "")%string = String x s). rewrite IH. reflexivity.
Qed.

Lemma format_empty (found_at : string) :
  format_appointment_message found_at ∅ = Returned (bare_message ++ found_at)%string.
Proof.
  unfold format_appointment_message, confidence_line, header_lines, link_line,
    source_line, note_line, footer_lines, get, get_default.
  rewrite !lookup_empty. cbn [truthy py_str].
  rewrite string_app_nil_r. reflexivity.
Qed.

(** C6. For the empty record the formatter returns (it does not raise) the
    fixed text with the default location and "Not specified" for the date
    and for the time, followed by the clock reading, and nothing else: as
    long as the clock reading holds no asterisk, the text has no confidence,
    source or note line. *)
Theorem format_empty_record (found_at : string) :
  contains "*" found_at = false ->
  exists text,
    format_appointment_message found_at ∅ = Returned text
    /\ text = (bare_message ++ found_at)%string
    /\ contains "📍 **Location:** Italy Visa Center Morocco" text = true
    /\ contains "📅 **Date:** Not specified" text = true
    /\ contains "⏰ **Time:** Not specified" text = true
    /\ contains "**Confidence:**" text = false
    /\ contains "**Source:**" text = false
    /\ contains "**Note:**" text = false.
Proof.
  intros Hclock. exists (bare_message ++ found_at)%string.
  split; [apply format_empty|]. split; [reflexivity|].
  repeat split; try (apply contains_app_l; vm_compute; reflexivity).
  - change "**Confidence:**" with ("**Confidence:*" ++ "*")%string.
    rewrite (contains_app_absent _ _ _ _ Hclock). vm_compute. reflexivity.
  - change "**Source:**" with ("**Source:*" ++ "*")%string.
    rewrite (contains_app_absent _ _ _ _ Hclock). vm_compute. reflexivity.
  - change "**Note:**" with ("**Note:*" ++ "*")%string.
    rewrite (contains_app_absent _ _ _ _ Hclock). vm_compute. reflexivity.
Qed.

Lemma glyphs_differ :
  red_glyph <> yellow_glyph /\ red_glyph <> green_glyph /\ yellow_glyph <> green_glyph.
Proof. repeat split; discriminate. Qed.

(** C10 (as the code has it).  For a record whose confidence field holds a
    non-empty text the formatter returns (it does not raise), and the
    confidence line starts with the glyph picked by comparing that text: red
    for 'low', yellow for 'medium', green for any other text.  The line goes
    on with the title-cased text, which for ASCII text is [title]. *)
Theorem confidence_glyph_by_comparison
    (found_at : string) (appointment : record) (confidence : string) :
  appointment !! "confidence" = Some (PyStr confidence) ->
  confidence <> "" ->
  (exists shown,
     format_appointment_message found_at appointment
     = Returned (header_lines appointment ++ link_line appointment
                 ++ (glyph_of confidence ++ " **Confidence:** " ++ shown ++ nl)
                 ++ source_line appointment ++ footer_lines found_at
                 ++ note_line appointment)%string
     /\ (is_ascii_text confidence = true -> shown = title confidence))
  /\ (confidence = "low" -> glyph_of confidence = red_glyph)
  /\ (confidence = "medium" -> glyph_of confidence = yellow_glyph)
  /\ (confidence <> "low" -> confidence <> "medium" -> glyph_of confidence = green_glyph)
  /\ red_glyph <> yellow_glyph /\ red_glyph <> green_glyph /\ yellow_glyph <> green_glyph.
Proof.
  intros Hfield Hne.
  split; [|split; [|split; [|split]]].
  - exists (title confidence). split; [|reflexivity].
    unfold format_appointment_message, confidence_line, get, get_default.
    rewrite Hfield. cbn [truthy py_title].
    apply String.eqb_neq in Hne. rewrite Hne. reflexivity.
  - intros ->. reflexivity.
  - intros ->. reflexivity.
  - intros Hlow%String.eqb_neq Hmedium%String.eqb_neq.
    unfold glyph_of. rewrite Hlow, Hmedium. reflexivity.
  - apply glyphs_differ.
Qed.

(** The formatter relies on the confidence being text: a truthy value of
    another type has no [title] method, and the call raises. *)
Lemma format_confidence_not_text (found_at : string) (appointment : record) (z : Z) :
  appointment !! "confidence" = Some (PyInt z) ->
  z <> 0%Z ->
  exists e, format_appointment_message found_at appointment = Raised e
            /\ is_Exception e = true.
Proof.
  intros Hfield Hz.
  unfold format_appointment_message, confidence_line, get, get_default.
  rewrite Hfield. cbn [truthy py_title].
  apply Z.eqb_neq in Hz. rewrite Hz. cbn. eauto.
Qed.

(** ** Sample runs *)

(** Five failing cycles in a row send the warning on the third, on the
    fourth and on the fifth: the cycle that starts with the counter at 3
    sends it again, and the run holds three warnings and one stop message
    before the loop breaks. *)
Lemma warning_repeated_in_a_streak :
  state_before config60 (fun _ => failing_cycle) 3 = Some (LoopState None 3 false)
  /\ List.filter is_warning
       (tr (run_cycle config60 failing_cycle (LoopState None 3 false)))
     = [ESend (warning_text (error_msg 4 boom)) true]
  /\ res (monitoring_loop 5 config60 (fun _ => failing_cycle) 0 initial_state)
     = Returned Broke
  /\ length (List.filter is_warning
       (tr (monitoring_loop 5 config60 (fun _ => failing_cycle) 0 initial_state))) = 3
  /\ length (List.filter is_stopped
       (tr (monitoring_loop 5 config60 (fun _ => failing_cycle) 0 initial_state))) = 1.
Proof. repeat split; vm_compute; reflexivity. Qed.

Lemma warning_on_every_cycle_from_three_witness :
  length (List.filter is_warning
            (tr (run_cycle config60 failing_cycle (LoopState None 3 false)))) = 1.
Proof.
  rewrite (proj1 (warning_on_every_cycle_from_three config60 (fun _ => failing_cycle))).
  reflexivity.
Defined.

(** With the notifier down at the third failing cycle, the loop ends there
    with the notifier's [Exception]: no [break], no interruption, and the
    counter at 3. *)
Lemma loop_left_below_five :
  res (monitoring_loop 10 config60 notifier_breaks_at_third 0 initial_state)
  = Raised telegram_down
  /\ is_Exception telegram_down = true
  /\ consecutive_errors
       (st (monitoring_loop 10 config60 notifier_breaks_at_third 0 initial_state)) = 3.
Proof. repeat split; vm_compute; reflexivity. Qed.

Lemma loop_exits_witness :
  consecutive_errors
    (st (monitoring_loop 5 config60 (fun _ => failing_cycle) 0 initial_state)) = 5.
Proof.
  exact (proj1 (loop_exits config60 (fun _ => failing_cycle)) 5).
Defined.

Lemma use_enhanced_method_one_way_witness :
  use_enhanced_method initial_state = false
  /\ use_enhanced_method (st (run_cycle config60 primary_down_cycle initial_state)) = true
  /\ state_before config60 (fun _ => primary_down_cycle) 4
     = Some (LoopState (Some "2024-05-01 09:00:00 +01") 0 true).
Proof.
  destruct (use_enhanced_method_one_way config60 (fun _ => primary_down_cycle) 0
              initial_state "2024-05-01 09:00:00 +01" (Exn ExceptionK "primary down")
              eq_refl eq_refl eq_refl eq_refl eq_refl) as (H0 & H1 & _).
  split; [exact H0|]. split; [exact H1|]. vm_compute. reflexivity.
Defined.

Lemma fallback_not_invoked_after_primary_success_witness :
  use_enhanced_method initial_state = false
  /\ check_appointments found_cycle = Returned [morning]
  /\ ECheckFallback ∉ tr (run_cycle config60 found_cycle initial_state).
Proof.
  split; [reflexivity|]. split; [reflexivity|].
  apply (fallback_not_invoked_after_primary_success config60 found_cycle
           initial_state morning []); reflexivity.
Defined.

Lemma fallback_failure_not_counted_witness :
  res (run_cycle config60 fallback_down_cycle (LoopState None 2 false)) = Returned Next
  /\ consecutive_errors
       (st (run_cycle config60 fallback_down_cycle (LoopState None 2 false))) = 0.
Proof.
  destruct (fallback_failure_not_counted config60 fallback_down_cycle
              (LoopState None 2 false) (Exn ExceptionK "enhanced down")
              eq_refl eq_refl) as (_ & Hres & _ & _ & Hreset & _).
  split; [rewrite Hres; reflexivity | apply Hreset; reflexivity].
Defined.

Lemma format_empty_record_witness :
  exists text,
    format_appointment_message "2024-05-01 09:00:05 +01" ∅ = Returned text
    /\ contains "Italy Visa Center Morocco" text = true
    /\ contains "**Note:**" text = false.
Proof.
  destruct (format_empty_record "2024-05-01 09:00:05 +01" eq_refl)
    as (text & Hfmt & -> & _ & _ & _ & _ & _ & Hnote).
  eexists. split; [exact Hfmt|]. split; [reflexivity | exact Hnote].
Defined.

Lemma top_level_handler_reraises_witness :
  res (main 10 doomed_process initial_state) = Raised telegram_down
  /\ exit_status (res (main 10 doomed_process initial_state)) = Some 1.
Proof.
  edestruct (top_level_handler_reraises 10 doomed_process telegram_down)
    as [Hmain Hexit];
    [reflexivity | reflexivity | vm_compute; reflexivity | reflexivity |].
  split; [rewrite Hmain; reflexivity | exact Hexit].
Defined.

Lemma handler_send_failure_escapes_witness :
  res (run_cycle config60 unreachable_cycle (LoopState None 2 false))
  = Raised telegram_down
  /\ consecutive_errors
       (st (run_cycle config60 unreachable_cycle (LoopState None 2 false))) = 3.
Proof.
  destruct (handler_send_failure_escapes config60 unreachable_cycle
              (LoopState None 2 false) boom telegram_down eq_refl eq_refl)
    as (Hres & Hcount & _).
  - left. split; [cbn; lia | reflexivity].
  - split; [exact Hres | exact Hcount].
Defined.

Lemma appointment_send_failure_counts_witness :
  List.filter is_format
    (tr (run_cycle config60 second_send_fails_cycle (LoopState None 1 false)))
  = [EFormat morning; EFormat noon]
  /\ consecutive_errors
       (st (run_cycle config60 second_send_fails_cycle (LoopState None 1 false))) = 2
  /\ last_check_time
       (st (run_cycle config60 second_send_fails_cycle (LoopState None 1 false))) = None.
Proof.
  edestruct (appointment_send_failure_counts config60 second_send_fails_cycle
               (LoopState None 1 false) (LoopState None 1 false)
               "2024-05-01 09:00:00 +01" [ECheckPrimary] [morning] noon [evening])
    as (_ & _ & Hcount & Htime);
    [reflexivity | reflexivity | | vm_compute; reflexivity | reflexivity | reflexivity |].
  - intros [|j] r' Hj; [|destruct j; discriminate].
    injection Hj as <-. split; [eexists; vm_compute; reflexivity | reflexivity].
  - split; [vm_compute; reflexivity|]. split; [exact Hcount | exact Htime].
Defined.

Lemma confidence_glyph_by_comparison_witness :
  exists text,
    format_appointment_message "2024-05-01 09:00:05 +01"
      {[ "confidence" := PyStr "unsure" ]} = Returned text
    /\ glyph_of "unsure" = green_glyph.
Proof.
  destruct (confidence_glyph_by_comparison "2024-05-01 09:00:05 +01"
              {[ "confidence" := PyStr "unsure" ]} "unsure")
    as ((shown & Hfmt & _) & _ & _ & Hgreen & _); [reflexivity | discriminate |].
  eexists. split; [exact Hfmt | apply Hgreen; discriminate].
Defined.

(** A confidence that is present and truthy without being text: the number
    85, or [True].  The comparisons pick the green glyph, and the call of
    [title] raises. *)
Lemma truthy_confidence_that_is_not_text_raises :
  ({[ "confidence" := PyInt 85 ]} : record) !! "confidence" = Some (PyInt 85)
  /\ truthy (PyInt 85) = true
  /\ confidence_emoji (PyInt 85) = green_glyph
  /\ format_appointment_message "2024-05-01 09:00:05 +01" {[ "confidence" := PyInt 85 ]}
     = Raised (AttributeError "'int' object has no attribute 'title'")
  /\ truthy (PyBool true) = true
  /\ format_appointment_message "2024-05-01 09:00:05 +01"
       {[ "confidence" := PyBool true ]}
     = Raised (AttributeError "'bool' object has no attribute 'title'").
Proof. repeat split; vm_compute; reflexivity. Qed.

(** * Further properties of the formatter *)

Ltac unfold_format :=
  unfold format_appointment_message, confidence_line, header_lines, link_line,
    source_line, note_line, get, get_default.


Lemma not_known_key (k : string) :
  k ∉ known_keys ->
  k <> "location" /\ k <> "date" /\ k <> "time" /\ k <> "link"
  /\ k <> "confidence" /\ k <> "source" /\ k <> "note".
Proof.
  unfold known_keys. rewrite !not_elem_of_cons. tauto.
Qed.

(** X2. The formatter reads its seven keys and no other: setting or removing
    any other key of the record leaves the result as it is. *)
Theorem format_ignores_other_keys
    (found_at : string) (appointment : record) (k : string) (v : pyval) :
  k ∉ known_keys ->
  format_appointment_message found_at (<[k:=v]> appointment)
  = format_appointment_message found_at appointment
  /\ format_appointment_message found_at (delete k appointment)
     = format_appointment_message found_at appointment.
Proof.
  intros (H1 & H2 & H3 & H4 & H5 & H6 & H7)%not_known_key.
  split; unfold_format.
  - rewrite !lookup_insert_ne by done. reflexivity.
  - rewrite !lookup_delete_ne by done. reflexivity.
Qed.

(** X3. For the link, the confidence, the source and the note, a falsy value
    (an empty text, [None], [False], 0) counts as no value: the record
    formats like the record without that key. *)
Theorem falsy_field_formats_as_absent
    (found_at : string) (appointment : record) (k : string) (v : pyval) :
  k ∈ optional_keys ->
  appointment !! k = Some v ->
  truthy v = false ->
  format_appointment_message found_at appointment
  = format_appointment_message found_at (delete k appointment).
Proof.
  unfold optional_keys. rewrite !elem_of_cons, elem_of_nil.
  intros [->|[->|[->|[->|[]]]]] Hk Hv; unfold_format;
    rewrite lookup_delete_eq, !lookup_delete_ne by done;
    rewrite Hk, Hv; reflexivity.
Qed.

Lemma default_of_Some (k d : string) :
  default_of k = Some d ->
  (k = "location" /\ d = "Italy Visa Center Morocco")
  \/ (k = "date" /\ d = "Not specified")
  \/ (k = "time" /\ d = "Not specified").
Proof.
  unfold default_of.
  destruct (String.eqb_spec k "location") as [->|_]; [intros [= <-]; auto|].
  destruct (String.eqb_spec k "date") as [->|_]; [intros [= <-]; auto|].
  destruct (String.eqb_spec k "time") as [->|_]; [intros [= <-]; auto|].
  discriminate.
Qed.

(** X4. For the location, the date and the time, the default text stands in
    for an absent key only: a record without the key formats like the record
    with the default as value, and a record with a value formats like the
    record with the rendering of that value, so that a present [None] shows
    as the text None and not as the default. *)
Theorem default_stands_for_absent_key_only
    (found_at : string) (appointment : record) (k d : string) :
  default_of k = Some d ->
  (appointment !! k = None ->
   format_appointment_message found_at appointment
   = format_appointment_message found_at (<[k := PyStr d]> appointment))
  /\ (forall v, appointment !! k = Some v ->
      format_appointment_message found_at appointment
      = format_appointment_message found_at (<[k := PyStr (py_str v)]> appointment)).
Proof.
  intros [[-> ->]|[[-> ->]|[-> ->]]]%default_of_Some; split; intros;
    unfold_format;
    rewrite lookup_insert_eq, !lookup_insert_ne by done;
    match goal with H : _ !! _ = _ |- _ => rewrite H end; reflexivity.
Qed.

Lemma prefix_app_self (sub rest : string) : String.prefix sub (sub ++ rest) = true.
Proof.
  induction sub as [|x sub IH]; [apply prefix_empty|].
  simpl. destruct (ascii_dec x x); [exact IH|contradiction].
Qed.

Lemma contains_prefix (sub s : string) :
  String.prefix sub s = true -> contains sub s = true.
Proof. intros H. destruct s; cbn [contains]; rewrite H; reflexivity. Qed.

Lemma contains_app_r (sub a b : string) :
  contains sub b = true -> contains sub (a ++ b) = true.
Proof.
  intros Hb. induction a as [|x a IH]; [exact Hb|].
  change (String x a ++ b)%string with (String x (a ++ b)).
  rewrite contains_cons, IH. apply orb_true_r.
Qed.

Lemma contains_here (sub rest : string) : contains sub (sub ++ rest) = true.
Proof. apply contains_prefix, prefix_app_self. Qed.

Lemma footer_lines_fixed (found_at : string) :
  contains action_line (footer_lines found_at) = true
  /\ contains website_line (footer_lines found_at) = true
  /\ contains ("⏱️ **Found at:** " ++ found_at) (footer_lines found_at) = true.
Proof.
  unfold footer_lines. fold action_line. fold website_line.
  split; [|split].
  - apply contains_app_r, contains_here.
  - do 3 apply contains_app_r. apply contains_here.
  - do 5 apply contains_app_r. rewrite <- (string_app_nil_r (_ ++ found_at)) at 2.
    apply contains_here.
Qed.

(** X5. Every message the formatter returns starts with the title line and
    holds the call to act, the address of the booking site and the clock
    reading, whatever the record holds. *)
Theorem format_always_has_fixed_lines
    (found_at : string) (appointment : record) (text : string) :
  format_appointment_message found_at appointment = Returned text ->
  String.prefix title_line text = true
  /\ contains action_line text = true
  /\ contains website_line text = true
  /\ contains ("⏱️ **Found at:** " ++ found_at) text = true.
Proof.
  intros Hfmt. split; [exact (format_starts_with_title _ _ _ Hfmt)|].
  unfold format_appointment_message in Hfmt.
  destruct (confidence_line appointment) as [conf|]; [|discriminate].
  injection Hfmt as <-.
  destruct (footer_lines_fixed found_at) as (Ha & Hw & Hf).
  split; [|split]; do 4 apply contains_app_r; apply contains_app_l; assumption.
Qed.

Lemma format_always_has_fixed_lines_witness :
  exists text,
    format_appointment_message "2024-05-01 09:00:05 +01" morning = Returned text
    /\ contains website_line text = true.
Proof.
  eexists. split; [vm_compute; reflexivity|].
  eapply (format_always_has_fixed_lines "2024-05-01 09:00:05 +01" morning).
  vm_compute. reflexivity.
Defined.

Lemma format_ignores_other_keys_witness :
  format_appointment_message "2024-05-01 09:00:05 +01" (<["price" := PyInt 90]> morning)
  = format_appointment_message "2024-05-01 09:00:05 +01" morning.
Proof.
  apply (format_ignores_other_keys "2024-05-01 09:00:05 +01" morning "price" (PyInt 90)).
  unfold known_keys. rewrite !not_elem_of_cons. repeat split; try discriminate.
  apply not_elem_of_nil.
Defined.

Lemma falsy_field_formats_as_absent_witness :
  format_appointment_message "2024-05-01 09:00:05 +01" (<["link" := PyStr ""]> morning)
  = format_appointment_message "2024-05-01 09:00:05 +01"
      (delete "link" (<["link" := PyStr ""]> morning)).
Proof.
  apply (falsy_field_formats_as_absent _ _ "link" (PyStr ""));
    [unfold optional_keys; apply list_elem_of_here | reflexivity | reflexivity].
Defined.

Lemma default_stands_for_absent_key_only_witness :
  format_appointment_message "2024-05-01 09:00:05 +01" (<["date" := PyNone]> ∅)
  = format_appointment_message "2024-05-01 09:00:05 +01"
      (<["date" := PyStr "None"]> (<["date" := PyNone]> ∅)).
Proof.
  apply (proj2 (default_stands_for_absent_key_only "2024-05-01 09:00:05 +01"
                  (<["date" := PyNone]> ∅) "date" "Not specified" eq_refl) PyNone).
  reflexivity.
Defined.

(** * Further properties of the monitoring loop *)

(** ** Which events a cycle can hold *)

Section Filters.

Variable P : event -> bool.
Hypothesis not_checks : forall ev, is_check_event ev = true -> P ev = false.
Hypothesis not_appointments : forall ev, is_appointment_event ev = true -> P ev = false.

Lemma filter_none (Q : event -> bool) (t : list event) :
  (forall ev, Q ev = true -> P ev = false) ->
  forallb Q t = true -> List.filter P t = [].
Proof.
  intros HQ. induction t as [|ev t IH]; [reflexivity|]. cbn [forallb List.filter].
  intros [Hev Ht]%andb_prop. rewrite (HQ ev Hev). auto.
Qed.

Lemma cycle_body_filter (env : cycle_env) (s : loop_state) :
  List.filter P (tr (cycle_body env s)) = [].
Proof.
  rewrite cycle_body_run. destruct (now env) as [ct|e]; [|reflexivity].
  pose proof (filter_none _ _ not_checks (collect_appointments_events env s)) as Hc.
  assert (forall lvl msg, P (ELog lvl msg) = false) as Hlog
    by (intros; apply not_checks; reflexivity).
  destruct (collect_appointments env s) as [[[l|e] s1] t1]; cbn [tr snd] in Hc;
    [|cbn [tr snd List.filter]; rewrite Hlog; exact Hc].
  pose proof (filter_none _ _ not_appointments (notify_each_events env l 0 s1)) as Hn.
  rewrite notify_appointments_run.
  destruct l as [|a l].
  - cbn [tr snd List.filter]. rewrite Hlog, List.filter_app, Hc. cbn. rewrite Hlog.
    reflexivity.
  - destruct (notify_each env 0 (a :: l) s1) as [[[u|e] s2] t2];
      cbn [res st tr fst snd List.filter] in Hn |- *;
      rewrite Hlog, List.filter_app, Hc; cbn [List.filter app]; rewrite Hlog; exact Hn.
Qed.

(** The part of the trace of a cycle that comes after the body. *)
Lemma run_cycle_filter (config : Config) (env : cycle_env) (s : loop_state) :
  List.filter P (tr (run_cycle config env s))
  = match res (cycle_body env s) with
    | Returned _ => List.filter P (tr (after_try config env Next (st (cycle_body env s))))
    | Raised e =>
        if is_Exception e then
          List.filter P (tr (error_handler env e (st (cycle_body env s))))
          ++ match res (error_handler env e (st (cycle_body env s))) with
             | Returned c =>
                 List.filter P (tr (after_try config env c
                                      (st (error_handler env e (st (cycle_body env s))))))
             | Raised _ => []
             end
        else []
    end.
Proof.
  rewrite run_cycle_run. pose proof (cycle_body_filter env s) as Hbody.
  destruct (cycle_body env s) as [[[u|e] s1] t1]; cbn [res st tr fst snd] in *.
  - rewrite List.filter_app, Hbody. reflexivity.
  - destruct (is_Exception e); [|exact Hbody].
    destruct (error_handler env e s1) as [[[c|e'] s2] t2]; cbn [res st tr fst snd];
      rewrite !List.filter_app, Hbody, ?app_nil_r; reflexivity.
Qed.

End Filters.

(** All the ways through the error handler and the wait that follows it,
    for a goal that mentions the run of the handler. *)
Ltac handler_and_wait_cases env :=
  rewrite ?error_handler_run; cbv zeta;
  destruct (3 <=? _)%nat;
    [destruct (send_warning env);
       [|destruct (5 <=? _)%nat; [destruct (send_stopped env)|]]|];
  cbn [res st tr fst snd]; rewrite ?after_try_res, ?after_try_run;
  unfold wait_result; try destruct (sleep env);
  cbn [res st tr fst snd wait_trace].

(** ** The wait between two cycles *)

(** X6. A cycle that goes on to the next one, its body completed or failed,
    ends with one call of [time.sleep] for the configured interval and holds
    no other; a cycle that breaks does not sleep; a cycle that an exception
    leaves has slept only if the sleep itself raised it. *)
Theorem one_wait_per_continuing_cycle
    (config : Config) (env : cycle_env) (s : loop_state) :
  match res (run_cycle config env s) with
  | Returned Next =>
      List.filter is_sleep (tr (run_cycle config env s)) = [ESleep (check_interval config)]
      /\ exists t, tr (run_cycle config env s) = t ++ wait_trace config
  | Returned Break => List.filter is_sleep (tr (run_cycle config env s)) = []
  | Raised e =>
      List.filter is_sleep (tr (run_cycle config env s)) = []
      \/ (sleep env = Some e
          /\ List.filter is_sleep (tr (run_cycle config env s))
             = [ESleep (check_interval config)])
  end.
Proof.
  assert (forall ev, is_check_event ev = true -> is_sleep ev = false) as H1
    by (intros []; first [reflexivity | discriminate]).
  assert (forall ev, is_appointment_event ev = true -> is_sleep ev = false) as H2
    by (intros []; first [reflexivity | discriminate]).
  rewrite (run_cycle_filter is_sleep H1 H2), run_cycle_res.
  rewrite run_cycle_run.
  destruct (cycle_body env s) as [[[u|e0] s1] t1]; cbn [res st tr fst snd].
  - rewrite after_try_run. unfold wait_result.
    destruct (sleep env); cbn [tr snd List.filter is_sleep wait_trace]; eauto.
  - destruct (is_Exception e0); [|auto].
    handler_and_wait_cases env; cbn [List.filter is_sleep app];
      first [ left; reflexivity
            | right; split; reflexivity
            | split; [reflexivity|];
              first [ eexists (t1 ++ [_; _]); rewrite <- app_assoc; reflexivity
                    | eexists (t1 ++ [_]); rewrite <- app_assoc; reflexivity ]
            | reflexivity ].
Qed.

(** ** Which method a cycle calls *)

Lemma appointment_events_no_check_call (t : list event) :
  forallb is_appointment_event t = true -> List.filter is_check_call t = [].
Proof.
  induction t as [|ev t IH]; [reflexivity|]. cbn [forallb List.filter].
  intros [Hev Ht]%andb_prop. rewrite (IH Ht).
  destruct ev; first [reflexivity | discriminate].
Qed.

Lemma collect_appointments_check_calls (env : cycle_env) (s : loop_state) :
  List.filter is_check_call (tr (collect_appointments env s))
  = if use_enhanced_method s then [ECheckFallback]
    else match check_appointments env with
         | Returned (_ :: _) => [ECheckPrimary]
         | Returned [] => [ECheckPrimary; ECheckFallback]
         | Raised e =>
             if is_Exception e then [ECheckPrimary; ECheckFallback]
             else [ECheckPrimary]
         end.
Proof.
  rewrite collect_appointments_run, primary_step_run.
  destruct (use_enhanced_method s) eqn:Hflag.
  - rewrite fallback_step_run, Hflag.
    destruct (check_availability env) as [[|a l]|e]; try reflexivity.
    destruct (is_Exception e); reflexivity.
  - destruct (check_appointments env) as [[|a l]|e].
    + rewrite fallback_step_run, Hflag.
      destruct (check_availability env) as [[|a' l']|e]; try reflexivity.
      destruct (is_Exception e); reflexivity.
    + rewrite fallback_step_run, Hflag. reflexivity.
    + destruct (is_Exception e); [|reflexivity].
      rewrite fallback_step_run.
      destruct (check_availability env) as [[|a' l']|e']; try reflexivity.
      destruct (is_Exception e'); reflexivity.
Qed.

Lemma cycle_body_check_calls (env : cycle_env) (s : loop_state) :
  List.filter is_check_call (tr (cycle_body env s))
  = check_calls env (use_enhanced_method s).
Proof.
  unfold check_calls. rewrite cycle_body_run.
  destruct (now env) as [ct|e]; [|reflexivity].
  rewrite <- collect_appointments_check_calls.
  destruct (collect_appointments env s) as [[[l|e] s1] t1]; [|reflexivity].
  rewrite notify_appointments_run.
  pose proof (appointment_events_no_check_call _ (notify_each_events env l 0 s1)) as Hn.
  destruct l as [|a l].
  - cbn [tr snd List.filter is_check_call]. rewrite List.filter_app.
    cbn. apply app_nil_r.
  - destruct (notify_each env 0 (a :: l) s1) as [[[u|e] s2] t2];
      cbn [res st tr fst snd List.filter is_check_call] in Hn |- *;
      rewrite List.filter_app; cbn [List.filter is_check_call];
      rewrite Hn; apply app_nil_r.
Qed.

(** X7. The check calls of a cycle, in order: none when the clock call
    fails; with the switch set, the enhanced method alone; otherwise the
    primary method, followed by the enhanced one exactly when the primary
    one returned nothing or raised an [Exception].  No method is called
    twice in a cycle, and once the switch is set the primary method is not
    called. *)
Theorem check_calls_of_a_cycle (config : Config) (env : cycle_env) (s : loop_state) :
  List.filter is_check_call (tr (run_cycle config env s))
  = check_calls env (use_enhanced_method s).
Proof.
  rewrite <- cycle_body_check_calls, run_cycle_run.
  destruct (cycle_body env s) as [[[u|e0] s1] t1]; cbn [res st tr fst snd].
  - rewrite List.filter_app, after_try_run.
    destruct (sleep env); cbn; apply app_nil_r.
  - destruct (is_Exception e0); [|reflexivity].
    handler_and_wait_cases env; rewrite !List.filter_app; cbn; apply app_nil_r.
Qed.

(** X8. The list a cycle goes on to notify is the result of one method: the
    non-empty result of the primary method, or the result of the enhanced
    one, or the empty list.  The results of the two methods are never
    joined. *)
Theorem appointments_come_from_one_method
    (env : cycle_env) (s : loop_state) (l : list record) :
  res (collect_appointments env s) = Returned l ->
  l = []
  \/ (use_enhanced_method s = false /\ check_appointments env = Returned l)
  \/ check_availability env = Returned l.
Proof.
  rewrite collect_appointments_run, primary_step_run.
  destruct (use_enhanced_method s) eqn:Hflag.
  - cbn [res fst]. rewrite fallback_step_run, Hflag.
    destruct (check_availability env) as [[|a l']|e]; cbn.
    + intros [= <-]. auto.
    + intros [= <-]. auto.
    + destruct (is_Exception e); cbn; [intros [= <-]; auto | discriminate].
  - destruct (check_appointments env) as [[|a l']|e].
    + cbn [res fst]. rewrite fallback_step_run, Hflag.
      destruct (check_availability env) as [[|a' l'']|e]; cbn.
      * intros [= <-]. auto.
      * intros [= <-]. auto.
      * destruct (is_Exception e); cbn; [intros [= <-]; auto | discriminate].
    + cbn [res fst]. rewrite fallback_step_run, Hflag. cbn. intros [= <-]. auto.
    + destruct (is_Exception e); [|discriminate].
      cbn [res fst]. rewrite fallback_step_run.
      destruct (check_availability env) as [[|a' l'']|e']; cbn.
      * intros [= <-]. auto.
      * intros [= <-]. auto.
      * destruct (is_Exception e'); cbn; [intros [= <-]; auto | discriminate].
Qed.

Lemma appointments_come_from_one_method_witness :
  res (collect_appointments enhanced_finds_cycle initial_state)
  = Returned [noon; evening]
  /\ check_availability enhanced_finds_cycle = Returned [noon; evening].
Proof.
  split; [reflexivity|].
  destruct (appointments_come_from_one_method enhanced_finds_cycle initial_state
              [noon; evening] eq_refl) as [H|[[_ H]|H]];
    [discriminate H | discriminate H | exact H].
Defined.

(** ** What a cycle sends *)

Lemma delivered_events_sends (env : cycle_env) (l : list record) (i : nat) :
  List.filter is_send (delivered_events env i l) = deliveries env i l.
Proof.
  revert i; induction l as [|a l IH]; intros i; [reflexivity|].
  cbn [delivered_events deliveries List.filter is_send]. rewrite IH. reflexivity.
Qed.

Lemma check_events_no_send (t : list event) :
  forallb is_check_event t = true -> List.filter is_send t = [].
Proof.
  induction t as [|ev t IH]; [reflexivity|]. cbn [forallb List.filter].
  intros [Hev Ht]%andb_prop. rewrite (IH Ht).
  destruct ev; first [reflexivity | discriminate].
Qed.

(** X9. A cycle in which every record found is formatted and delivered sends
    one message per record, in the order of the list, and nothing else; it
    leaves the counter at 0, records the time of the check, and goes on to
    the wait. *)
Theorem completed_cycle_sends_one_message_per_record
    (config : Config) (env : cycle_env) (s s1 : loop_state)
    (current_time : string) (t1 : list event) (l : list record) :
  now env = Returned current_time ->
  collect_appointments env s = (Returned l, s1, t1) ->
  (forall j r, l !! j = Some r -> delivers env j r) ->
  List.filter is_send (tr (run_cycle config env s)) = deliveries env 0 l
  /\ st (run_cycle config env s)
     = LoopState (Some current_time) 0 (use_enhanced_method s1)
  /\ res (run_cycle config env s) = wait_result env.
Proof.
  intros Hnow Hcollect Hall.
  pose proof (collect_appointments_events env s) as Hchecks.
  pose proof (collect_appointments_st env s) as Hst.
  pose proof (primary_step_st env s) as Hprimary.
  rewrite Hcollect in Hchecks, Hst. cbn [st tr fst snd] in Hchecks, Hst.
  apply check_events_no_send in Hchecks.
  assert (cycle_body env s
          = (Returned tt,
             set_consecutive_errors 0 (set_last_check_time current_time s1),
             ELog INFO (checking_msg current_time) :: t1
               ++ tr (notify_appointments env l s1))
          /\ List.filter is_send (tr (notify_appointments env l s1)) = deliveries env 0 l)
    as [Hbody Hsends].
  { rewrite cycle_body_run, Hnow, Hcollect, notify_appointments_run.
    rewrite (notify_each_delivers env l 0 s1 Hall).
    destruct l as [|a l]; [split; reflexivity|].
    cbn [res st tr fst snd]. split; [reflexivity|].
    cbn [List.filter is_send]. apply delivered_events_sends. }
  rewrite run_cycle_run, Hbody. cbn [res st tr fst snd].
  rewrite after_try_res, after_try_run.
  split; [|split; reflexivity].
  rewrite List.filter_app. cbn [List.filter is_send].
  rewrite List.filter_app, Hchecks, Hsends.
  destruct (sleep env); cbn; apply app_nil_r.
Qed.

Lemma completed_cycle_sends_one_message_per_record_witness :
  List.filter is_send (tr (run_cycle config60 enhanced_finds_cycle initial_state))
  = [ESend (message_of enhanced_finds_cycle 0 noon) true;
     ESend (message_of enhanced_finds_cycle 1 evening) true]
  /\ st (run_cycle config60 enhanced_finds_cycle initial_state)
     = LoopState (Some "2024-05-01 09:00:00 +01") 0 false.
Proof.
  edestruct (completed_cycle_sends_one_message_per_record config60
               enhanced_finds_cycle initial_state initial_state
               "2024-05-01 09:00:00 +01"
               [ECheckPrimary; ECheckFallback;
                ELog INFO "Enhanced method detected potential appointments"]
               [noon; evening])
    as (Hsends & Hst & _); [reflexivity | reflexivity | |].
  - intros [|[|j]] r Hj; try discriminate; injection Hj as <-;
      (split; [eexists; vm_compute; reflexivity | reflexivity]).
  - split; [exact Hsends | exact Hst].
Defined.

(** X10. On the cycle that breaks the loop the handler sends two
    notifications, the warning and then the stop message, both delivered,
    and the trace of the cycle ends with them: nothing follows, no wait
    either. *)
Theorem breaking_cycle_warns_then_stops
    (config : Config) (env : cycle_env) (s : loop_state) :
  res (run_cycle config env s) = Returned Break ->
  exists e0,
    res (cycle_body env s) = Raised e0
    /\ tr (run_cycle config env s)
       = tr (cycle_body env s) ++ stopping_events (consecutive_errors s + 1) e0
    /\ consecutive_errors (st (run_cycle config env s)) = consecutive_errors s + 1.
Proof.
  intros Hbreak.
  destruct (proj1 (run_cycle_Break config env s) Hbreak)
    as (e0 & Hres & He0 & H5 & Hw & Hs).
  exists e0. split; [exact Hres|].
  destruct (cycle_body_raised env s e0 Hres) as [Hcount _].
  split.
  - rewrite run_cycle_run.
    destruct (cycle_body env s) as [[r1 s1] t1]. cbn [res st tr fst snd] in *.
    subst r1. rewrite He0, error_handler_run, Hcount. cbv zeta.
    assert ((3 <=? consecutive_errors s + 1)%nat = true) as -> by (apply Nat.leb_le; lia).
    apply Nat.leb_le in H5. rewrite Hw, H5, Hs.
    cbn [res st tr fst snd]. rewrite after_try_run. cbn [tr snd].
    rewrite app_nil_r. reflexivity.
  - rewrite run_cycle_consecutive_errors, Hres, He0. reflexivity.
Qed.

Lemma breaking_cycle_warns_then_stops_witness :
  exists e0,
    tr (run_cycle config60 failing_cycle (LoopState None 4 false))
    = tr (cycle_body failing_cycle (LoopState None 4 false)) ++ stopping_events 5 e0.
Proof.
  destruct (breaking_cycle_warns_then_stops config60 failing_cycle
              (LoopState None 4 false) eq_refl) as (e0 & _ & Htrace & _).
  exists e0. exact Htrace.
Defined.

(** ** A record that cannot be formatted *)

Lemma format_raises_Exception (found_at : string) (r : record) (e : exn) :
  format_appointment_message found_at r = Raised e -> is_Exception e = true.
Proof.
  unfold format_appointment_message, confidence_line.
  destruct (truthy (get r "confidence")); [|discriminate].
  destruct (get r "confidence"); cbn [py_title]; first [discriminate | intros [= <-]];
    reflexivity.
Qed.

Lemma notify_each_unformattable (env : cycle_env) (pre : list record) (r : record)
    (post : list record) (i : nat) (s : loop_state) (e : exn) :
  (forall j r', pre !! j = Some r' -> delivers env (i + j) r') ->
  format_appointment_message (found_at env (i + length pre)) r = Raised e ->
  notify_each env i (pre ++ r :: post) s =
  (Raised e, s, delivered_events env i pre ++ [EFormat r]).
Proof.
  revert i; induction pre as [|a pre IH]; intros i Hpre Hfmt.
  - cbn [length app] in *. rewrite Nat.add_0_r in Hfmt.
    rewrite notify_each_cons, Hfmt. reflexivity.
  - cbn [app]. rewrite notify_each_cons. cbn [delivered_events]. unfold message_of.
    destruct (Hpre 0 a eq_refl) as [[m Hm] Hok].
    rewrite Nat.add_0_r in Hm, Hok. rewrite Hm, Hok.
    cbn [length] in Hfmt.
    rewrite IH; [reflexivity| |
      replace (S i + length pre) with (i + S (length pre)) by lia; assumption].
    intros j r' Hj. replace (S i + j) with (i + S j) by lia. apply Hpre. exact Hj.
Qed.

(** X11. A record the formatter raises on is an error of the cycle like any
    other: the records before it having been delivered, nothing is sent for
    it or for the records after it, which are not formatted either;
    [last_check_time] keeps its value and [consecutive_errors] is one more
    than before. *)
Theorem unformattable_record_fails_the_cycle
    (config : Config) (env : cycle_env) (s s1 : loop_state)
    (current_time : string) (t1 : list event)
    (pre : list record) (r : record) (post : list record) (e : exn) :
  now env = Returned current_time ->
  collect_appointments env s = (Returned (pre ++ r :: post), s1, t1) ->
  (forall j r', pre !! j = Some r' -> delivers env j r') ->
  format_appointment_message (found_at env (length pre)) r = Raised e ->
  List.filter is_appointment_event (tr (run_cycle config env s))
  = delivered_events env 0 pre ++ [EFormat r]
  /\ consecutive_errors (st (run_cycle config env s)) = consecutive_errors s + 1
  /\ last_check_time (st (run_cycle config env s)) = last_check_time s.
Proof.
  intros Hnow Hcollect Hpre Hfmt.
  pose proof (format_raises_Exception _ _ _ Hfmt) as He.
  assert (cycle_body env s
          = (Raised e, s1,
             ELog INFO (checking_msg current_time) :: t1
               ++ ELog INFO (found_msg (length (pre ++ r :: post)))
               :: delivered_events env 0 pre ++ [EFormat r])) as Hbody.
  { rewrite cycle_body_run, Hnow, Hcollect, notify_appointments_run.
    rewrite (notify_each_unformattable env pre r post 0 s1 e Hpre Hfmt).
    destruct pre; reflexivity. }
  assert (res (cycle_body env s) = Raised e) as Hres by (rewrite Hbody; reflexivity).
  destruct (cycle_body_raised env s e Hres) as [Hcount Htime].
  split; [|split].
  - pose proof (collect_appointments_events env s) as Hchecks.
    rewrite Hcollect in Hchecks. cbn [tr snd] in Hchecks.
    apply check_events_no_appointment in Hchecks.
    rewrite run_cycle_run, Hbody, He.
    pose proof (error_handler_no_appointment env e s1) as Hh.
    assert (List.filter is_appointment_event
              (ELog INFO (checking_msg current_time) :: t1
                 ++ ELog INFO (found_msg (length (pre ++ r :: post)))
                 :: delivered_events env 0 pre ++ [EFormat r])
            = delivered_events env 0 pre ++ [EFormat r]) as Hbt.
    { cbn [List.filter is_appointment_event].
      rewrite List.filter_app, Hchecks. cbn [List.filter is_appointment_event app].
      rewrite List.filter_app, (delivered_events_appointment env pre 0 Hpre).
      reflexivity. }
    destruct (error_handler env e s1) as [[[c|e''] s3] t3]; cbn [tr snd] in Hh |- *;
      rewrite !List.filter_app, Hbt, Hh, ?after_try_no_appointment, ?app_nil_r;
      reflexivity.
  - rewrite run_cycle_consecutive_errors, Hres, He. reflexivity.
  - rewrite run_cycle_st, Hres, He. unfold set_consecutive_errors.
    cbn [last_check_time]. exact Htime.
Qed.

Lemma unformattable_record_fails_the_cycle_witness :
  List.filter is_appointment_event
    (tr (run_cycle config60 second_unformattable_cycle initial_state))
  = delivered_events second_unformattable_cycle 0 [morning] ++ [EFormat scored]
  /\ consecutive_errors (st (run_cycle config60 second_unformattable_cycle initial_state)) = 1.
Proof.
  edestruct (unformattable_record_fails_the_cycle config60 second_unformattable_cycle
               initial_state initial_state "2024-05-01 09:00:00 +01" [ECheckPrimary]
               [morning] scored [evening])
    as (Hevents & Hcount & _);
    [reflexivity | reflexivity | | vm_compute; reflexivity |].
  - intros [|j] r' Hj; [|destruct j; discriminate].
    injection Hj as <-. split; [eexists; vm_compute; reflexivity | reflexivity].
  - split; [exact Hevents | exact Hcount].
Defined.

(** ** [last_check_time] is written and never read *)

Section Agree.

Variable config : Config.

Lemma decisive_eq (s s' : loop_state) :
  decisive s = decisive s' ->
  consecutive_errors s = consecutive_errors s'
  /\ use_enhanced_method s = use_enhanced_method s'.
Proof. unfold decisive. intros [= -> ->]. auto. Qed.

Lemma notify_each_indep (env : cycle_env) (l : list record) (i : nat) (s s' : loop_state) :
  res (notify_each env i l s) = res (notify_each env i l s')
  /\ tr (notify_each env i l s) = tr (notify_each env i l s').
Proof.
  revert i; induction l as [|a l IH]; intros i; [auto|].
  rewrite !notify_each_cons.
  destruct (format_appointment_message _ a); [|auto].
  destruct (send_appointment env i); [auto|].
  destruct (IH (S i)) as [-> ->]. auto.
Qed.

Lemma notify_appointments_indep (env : cycle_env) (l : list record) (s s' : loop_state) :
  res (notify_appointments env l s) = res (notify_appointments env l s')
  /\ tr (notify_appointments env l s) = tr (notify_appointments env l s').
Proof.
  rewrite !notify_appointments_run. destruct l as [|a l]; [auto|].
  destruct (notify_each_indep env (a :: l) 0 s s') as [-> ->]. auto.
Qed.

Lemma fallback_step_agree (env : cycle_env) (l : list record) (s s' : loop_state) :
  decisive s = decisive s' ->
  agree (fallback_step env l s) (fallback_step env l s').
Proof.
  destruct s as [o n b], s' as [o' n' b']. intros Hd.
  unfold decisive in Hd. cbn in Hd. injection Hd as <- <-. unfold agree.
  rewrite !fallback_step_st, !fallback_step_run. cbn [use_enhanced_method].
  destruct (b || negb (nonempty l)); [|auto].
  destruct (check_availability env) as [[|a l']|e]; auto.
  destruct (is_Exception e); auto.
Qed.

Lemma primary_step_agree (env : cycle_env) (s s' : loop_state) :
  decisive s = decisive s' ->
  agree (primary_step env s) (primary_step env s').
Proof.
  destruct s as [o n b], s' as [o' n' b']. intros Hd.
  unfold decisive in Hd. cbn in Hd. injection Hd as <- <-. unfold agree.
  rewrite !primary_step_run. cbn [use_enhanced_method].
  destruct b; [auto|].
  destruct (check_appointments env) as [l|e]; [auto|].
  destruct (is_Exception e); auto.
Qed.

Lemma collect_appointments_agree (env : cycle_env) (s s' : loop_state) :
  decisive s = decisive s' ->
  agree (collect_appointments env s) (collect_appointments env s').
Proof.
  intros Hd. rewrite !collect_appointments_run.
  destruct (primary_step_agree env s s' Hd) as (Hr & Ht & Hs).
  destruct (primary_step env s) as [[r1 s1] t1], (primary_step env s') as [[r2 s2] t2].
  cbn [res st tr fst snd] in Hr, Ht, Hs. subst r2 t2.
  destruct r1 as [l|e]; [|unfold agree; auto].
  destruct (fallback_step_agree env l s1 s2 Hs) as (Hfr & Hft & Hfs).
  unfold agree. cbn [res st tr fst snd]. rewrite Hfr, Hft. auto.
Qed.

Lemma cycle_body_agree (env : cycle_env) (s s' : loop_state) :
  decisive s = decisive s' -> agree (cycle_body env s) (cycle_body env s').
Proof.
  intros Hd. rewrite !cycle_body_run.
  destruct (now env) as [ct|e]; [|unfold agree; auto].
  destruct (collect_appointments_agree env s s' Hd) as (Hr & Ht & Hs).
  destruct (collect_appointments env s) as [[r1 s1] t1],
           (collect_appointments env s') as [[r2 s2] t2].
  cbn [res st tr fst snd] in Hr, Ht, Hs. subst r2 t2.
  destruct r1 as [l|e]; [|unfold agree; auto].
  destruct (notify_appointments_indep env l s1 s2) as [Hnr Hnt].
  pose proof (notify_appointments_st env l s1) as Hs1.
  pose proof (notify_appointments_st env l s2) as Hs2.
  destruct (notify_appointments env l s1) as [[r3 s3] t3],
           (notify_appointments env l s2) as [[r4 s4] t4].
  cbn [res st tr fst snd] in Hnr, Hnt, Hs1, Hs2. subst r4 t4 s3 s4.
  apply decisive_eq in Hs as [Hn Hb].
  destruct r3 as [u|e]; unfold agree, decisive; cbn; rewrite ?Hn, ?Hb; auto.
Qed.

Lemma error_handler_agree (env : cycle_env) (e : exn) (s s' : loop_state) :
  decisive s = decisive s' -> agree (error_handler env e s) (error_handler env e s').
Proof.
  intros [Hn Hb]%decisive_eq. unfold agree, decisive.
  rewrite !error_handler_st, !error_handler_res, !error_handler_run, <- Hn. cbv zeta.
  cbn [consecutive_errors use_enhanced_method set_consecutive_errors]. rewrite Hb.
  split; [reflexivity|]. split; [|reflexivity].
  destruct (3 <=? _)%nat; [|reflexivity].
  destruct (send_warning env); [reflexivity|].
  destruct (5 <=? _)%nat; [|reflexivity].
  destruct (send_stopped env); reflexivity.
Qed.

Lemma after_try_agree (env : cycle_env) (c : control) (s s' : loop_state) :
  decisive s = decisive s' ->
  agree (after_try config env c s) (after_try config env c s').
Proof.
  intros Hd. unfold agree. rewrite !after_try_run.
  destruct c; [destruct (sleep env)|]; auto.
Qed.

Lemma run_cycle_agree (env : cycle_env) (s s' : loop_state) :
  decisive s = decisive s' ->
  agree (run_cycle config env s) (run_cycle config env s').
Proof.
  intros Hd. rewrite !run_cycle_run.
  destruct (cycle_body_agree env s s' Hd) as (Hr & Ht & Hs).
  destruct (cycle_body env s) as [[r1 s1] t1], (cycle_body env s') as [[r2 s2] t2].
  cbn [res st tr fst snd] in Hr, Ht, Hs. subst r2 t2.
  destruct r1 as [u|e].
  - destruct (after_try_agree env Next s1 s2 Hs) as (Har & Hat & _).
    unfold agree. cbn [res st tr fst snd]. rewrite Har, Hat. auto.
  - destruct (is_Exception e); [|unfold agree; auto].
    destruct (error_handler_agree env e s1 s2 Hs) as (Hhr & Hht & Hhs).
    destruct (error_handler env e s1) as [[r3 s3] t3],
             (error_handler env e s2) as [[r4 s4] t4].
    cbn [res st tr fst snd] in Hhr, Hht, Hhs. subst r4 t4.
    destruct r3 as [c|e']; [|unfold agree; auto].
    destruct (after_try_agree env c s3 s4 Hhs) as (Har & Hat & _).
    unfold agree. cbn [res st tr fst snd]. rewrite Har, Hat. auto.
Qed.

End Agree.

(** X12. [last_check_time] is written and never read: two runs of the loop
    from states with the same counter and the same switch have the same
    result and the same trace, and end with the same counter and switch,
    whatever time each state recorded. *)
Theorem last_check_time_is_never_read
    (fuel : nat) (config : Config) (script : nat -> cycle_env) (k : nat)
    (s s' : loop_state) :
  decisive s = decisive s' ->
  agree (monitoring_loop fuel config script k s) (monitoring_loop fuel config script k s').
Proof.
  revert k s s'; induction fuel as [|fuel IH]; intros k s s' Hd.
  - unfold agree. cbn. auto.
  - rewrite !monitoring_loop_S.
    destruct (run_cycle_agree config (script k) s s' Hd) as (Hr & Ht & Hs).
    destruct (run_cycle config (script k) s) as [[r1 s1] t1],
             (run_cycle config (script k) s') as [[r2 s2] t2].
    cbn [res st tr fst snd] in Hr, Ht, Hs. subst r2 t2.
    destruct r1 as [[|]|e]; [|unfold agree; auto ..].
    destruct (IH (S k) s1 s2 Hs) as (Hlr & Hlt & Hls).
    unfold agree. cbn [res st tr fst snd]. rewrite Hlr, Hlt. auto.
Qed.

Lemma last_check_time_is_never_read_witness :
  tr (monitoring_loop 3 config60 notifier_breaks_at_third 0 initial_state)
  = tr (monitoring_loop 3 config60 notifier_breaks_at_third 0
          (LoopState (Some "2024-04-30 23:59:59 +01") 0 false)).
Proof.
  apply (last_check_time_is_never_read 3 config60 notifier_breaks_at_third 0
           initial_state (LoopState (Some "2024-04-30 23:59:59 +01") 0 false)).
  reflexivity.
Defined.

(** * Further properties of [main] *)

Section Main.

Variable p : process_env.

Lemma startup_st (s : loop_state) : st (startup p s) = s.
Proof.
  unfold startup, bind, call, send_message, outcome.
  destruct (config_init p); [reflexivity|].
  destruct (notifier_init p); [reflexivity|].
  destruct (checkers_init p); [reflexivity|].
  destruct (send_started p); reflexivity.
Qed.

Lemma startup_no_check_call (s : loop_state) :
  List.filter is_check_call (tr (startup p s)) = [].
Proof.
  unfold startup, bind, call, send_message, outcome.
  destruct (config_init p); [reflexivity|].
  destruct (notifier_init p); [reflexivity|].
  destruct (checkers_init p); [reflexivity|].
  destruct (send_started p); reflexivity.
Qed.

Lemma on_exception_run_any (e : exn) (s : loop_state) :
  on_exception p e s =
  (Raised e, s,
   ELog CRITICAL (critical_msg e)
     :: if notifier_bound p
        then [ESend (critical_text e) (delivered (send_critical p))]
        else []).
Proof.
  unfold on_exception, bind, log, emit, try_except_pass, handler_send,
    send_message, call.
  destruct (notifier_bound p); [|reflexivity].
  destruct (send_critical p); reflexivity.
Qed.

Lemma on_keyboard_interrupt_run (s : loop_state) :
  notifier_bound p = true ->
  on_keyboard_interrupt p s =
  (match send_stopped_by_user p with
   | None => Returned AfterInterrupt
   | Some e => Raised e
   end, s,
   [ELog INFO "Monitor stopped by user";
    ESend stopped_by_user_text (delivered (send_stopped_by_user p))]).
Proof.
  intros Hbound.
  unfold on_keyboard_interrupt, bind, log, emit, handler_send, send_message, ret.
  rewrite Hbound. destruct (send_stopped_by_user p); reflexivity.
Qed.

Lemma main_body_startup_raised (fuel : nat) (e : exn) :
  res (startup p initial_state) = Raised e ->
  main_body fuel p initial_state = (Raised e, initial_state, tr (startup p initial_state)).
Proof.
  intros Hres. pose proof (startup_st initial_state) as Hst.
  unfold main_body, bind.
  destruct (startup p initial_state) as [[[u|e'] s0] t0]; [discriminate|].
  cbn [res st tr fst snd] in *. injection Hres as ->. subst s0. reflexivity.
Qed.

End Main.

(** X13. When a [KeyboardInterrupt] leaves the monitoring loop, [main] logs
    that the user stopped the monitor and sends the stopped-by-user message
    once.  If that send is delivered [main] returns and the exit status is
    0; if it raises, nothing catches it and [main] raises what the send
    raised. *)
Theorem interrupt_is_reported
    (fuel : nat) (p : process_env) (e : exn) (s : loop_state) (t : list event) :
  keep_alive p = None ->
  res (startup p initial_state) = Returned tt ->
  monitoring_loop fuel (config p) (script p) 0 initial_state = (Raised e, s, t) ->
  exn_kind e = KeyboardInterruptK ->
  main fuel p initial_state
  = (match send_stopped_by_user p with
     | None => Returned AfterInterrupt
     | Some e' => Raised e'
     end, s,
     ELog INFO "Starting VFS Global Visa Appointment Monitor"
       :: (tr (startup p initial_state) ++ t)
       ++ [ELog INFO "Monitor stopped by user";
           ESend stopped_by_user_text (delivered (send_stopped_by_user p))])
  /\ (send_stopped_by_user p = None ->
      exit_status (res (main fuel p initial_state)) = Some 0).
Proof.
  intros Hkeep Hstart Hloop Hkind.
  destruct (startup_returned p _ Hstart) as [Hbound _].
  assert (main fuel p initial_state
          = (match send_stopped_by_user p with
             | None => Returned AfterInterrupt
             | Some e' => Raised e'
             end, s,
             ELog INFO "Starting VFS Global Visa Appointment Monitor"
               :: (tr (startup p initial_state) ++ t)
               ++ [ELog INFO "Monitor stopped by user";
                   ESend stopped_by_user_text (delivered (send_stopped_by_user p))]))
    as Hmain.
  { unfold main, bind, call, outcome, log, emit, try_main. rewrite Hkeep.
    rewrite (main_body_raised p fuel e s t Hstart Hloop), Hkind.
    rewrite (on_keyboard_interrupt_run p s Hbound). reflexivity. }
  split; [exact Hmain|].
  intros Hsend. rewrite Hmain, Hsend. reflexivity.
Qed.

Lemma interrupt_is_reported_witness :
  res (main 10 interrupted_process initial_state) = Returned AfterInterrupt
  /\ exit_status (res (main 10 interrupted_process initial_state)) = Some 0.
Proof.
  edestruct (interrupt_is_reported 10 interrupted_process interrupt)
    as [Hmain Hexit];
    [reflexivity | reflexivity | vm_compute; reflexivity | reflexivity |].
  split; [rewrite Hmain; reflexivity | apply Hexit; reflexivity].
Defined.

(** X14. When the start-up (the construction of the collaborators or the
    send of the start-up message) raises an [Exception], the loop never
    runs, whatever time the process is given: no check is made, [main] logs
    the error at level CRITICAL and raises it again.  The critical-error
    message is sent only if the notifier had been constructed; otherwise
    there is nothing to send with, and that failure is swallowed too. *)
Theorem startup_failure_is_fatal
    (fuel : nat) (p : process_env) (e : exn) :
  keep_alive p = None ->
  res (startup p initial_state) = Raised e ->
  exn_kind e = ExceptionK ->
  main fuel p initial_state
  = (Raised e, initial_state,
     ELog INFO "Starting VFS Global Visa Appointment Monitor"
       :: tr (startup p initial_state)
       ++ ELog CRITICAL (critical_msg e)
       :: if notifier_bound p
          then [ESend (critical_text e) (delivered (send_critical p))]
          else [])
  /\ List.filter is_check_call (tr (main fuel p initial_state)) = [].
Proof.
  intros Hkeep Hstart Hkind.
  assert (main fuel p initial_state
          = (Raised e, initial_state,
             ELog INFO "Starting VFS Global Visa Appointment Monitor"
               :: tr (startup p initial_state)
               ++ ELog CRITICAL (critical_msg e)
               :: if notifier_bound p
                  then [ESend (critical_text e) (delivered (send_critical p))]
                  else [])) as Hmain.
  { unfold main, bind, call, outcome, log, emit, try_main. rewrite Hkeep.
    rewrite (main_body_startup_raised p fuel e Hstart), Hkind.
    rewrite on_exception_run_any. reflexivity. }
  split; [exact Hmain|].
  rewrite Hmain. cbn [tr snd List.filter is_check_call].
  rewrite List.filter_app, startup_no_check_call.
  destruct (notifier_bound p); reflexivity.
Qed.

Lemma startup_failure_is_fatal_witness :
  main 10 unconfigured_process initial_state
  = (Raised (Exn ExceptionK "missing TELEGRAM_BOT_TOKEN"), initial_state,
     [ELog INFO "Starting VFS Global Visa Appointment Monitor";
      ELog CRITICAL (critical_msg (Exn ExceptionK "missing TELEGRAM_BOT_TOKEN"))]).
Proof.
  destruct (startup_failure_is_fatal 10 unconfigured_process
              (Exn ExceptionK "missing TELEGRAM_BOT_TOKEN") eq_refl eq_refl eq_refl)
    as [Hmain _].
  rewrite Hmain. reflexivity.
Defined.

(** * Further properties of the run as a whole *)

Section Run.

Variable config : Config.
Variable script : nat -> cycle_env.

Lemma run_cycle_counter_step (env : cycle_env) (s : loop_state) :
  consecutive_errors (st (run_cycle config env s)) <= consecutive_errors s + 1.
Proof.
  rewrite run_cycle_consecutive_errors.
  destruct (res (cycle_body env s)) as [u|e]; [lia|].
  destruct (is_Exception e); lia.
Qed.

Lemma cycles_counter_bound (n k : nat) (s s' : loop_state) (t : list event) :
  cycles config script k n s = Some (s', t) ->
  consecutive_errors s' <= consecutive_errors s + n.
Proof.
  revert k s s' t; induction n as [|n IH]; intros k s s' t.
  - cbn. intros [= <- <-]. lia.
  - rewrite cycles_S. intros Hc.
    pose proof (run_cycle_counter_step (script k) s) as Hstep.
    destruct (run_cycle config (script k) s) as [[[[|]|e] s1] t1]; try discriminate.
    destruct (cycles config script (S k) n s1) as [[s2 t2]|] eqn:Hrest; [|discriminate].
    injection Hc as <- <-. apply IH in Hrest. cbn [st fst snd] in Hstep. lia.
Qed.

Lemma healthy_loop_goes_on (fuel k : nat) (s : loop_state) :
  (forall j sj, state_before config script j = Some sj ->
     res (cycle_body (script j) sj) = Returned tt /\ sleep (script j) = None) ->
  state_before config script k = Some s ->
  res (monitoring_loop fuel config script k s) = Returned StillRunning.
Proof.
  intros Hhealthy. revert k s; induction fuel as [|fuel IH]; intros k s Hk;
    [reflexivity|].
  rewrite monitoring_loop_S.
  destruct (Hhealthy k s Hk) as [Hbody Hsleep].
  pose proof (run_cycle_res config (script k) s) as Hres.
  rewrite Hbody in Hres. unfold wait_result in Hres. rewrite Hsleep in Hres.
  pose proof (state_before_S config script k s) as Hstep.
  destruct (run_cycle config (script k) s) as [[r1 s1] t1].
  cbn [res fst] in Hres. subst r1. cbn [res fst].
  apply (IH (S k) s1). eapply Hstep; [exact Hk | reflexivity].
Qed.

End Run.

(** X15. The counter cannot run ahead of the cycles: at the start of cycle
    [k] (counting from 0) [consecutive_errors] is at most [k], so the loop
    never breaks before its fifth cycle. *)
Theorem no_break_before_the_fifth_cycle
    (config : Config) (script : nat -> cycle_env) (k : nat) (s : loop_state) :
  state_before config script k = Some s ->
  consecutive_errors s <= k
  /\ (res (run_cycle config (script k) s) = Returned Break -> 4 <= k).
Proof.
  intros [t Hk]%state_before_cycles.
  pose proof (cycles_counter_bound config script k 0 initial_state s t Hk) as Hle.
  cbn [consecutive_errors initial_state Nat.add] in Hle.
  split; [exact Hle|].
  intros Hbreak.
  pose proof (state_before_consecutive_errors config script k s) as Hlt.
  apply run_cycle_Break in Hbreak as (e0 & _ & _ & H5 & _). lia.
Qed.

Lemma no_break_before_the_fifth_cycle_witness :
  state_before config60 (fun _ => failing_cycle) 4 = Some (LoopState None 4 false)
  /\ consecutive_errors (LoopState None 4 false) <= 4.
Proof.
  split; [reflexivity|].
  exact (proj1 (no_break_before_the_fifth_cycle config60 (fun _ => failing_cycle) 4
                  (LoopState None 4 false) eq_refl)).
Defined.

(** X16. The loop does not end by itself while the checks go well: if the
    body of every cycle the run reaches completes and every wait returns,
    the loop is still running after any number of cycles. *)
Theorem loop_runs_while_cycles_complete
    (config : Config) (script : nat -> cycle_env) :
  (forall k s, state_before config script k = Some s ->
     res (cycle_body (script k) s) = Returned tt /\ sleep (script k) = None) ->
  forall fuel,
    res (monitoring_loop fuel config script 0 initial_state) = Returned StillRunning.
Proof.
  intros Hhealthy fuel.
  apply (healthy_loop_goes_on config script fuel 0 initial_state Hhealthy).
  reflexivity.
Qed.

Lemma idle_cycle_completes (s : loop_state) :
  res (cycle_body idle_cycle s) = Returned tt.
Proof. destruct s as [o n []]; reflexivity. Qed.

Lemma loop_runs_while_cycles_complete_witness :
  res (monitoring_loop 1000 config60 (fun _ => idle_cycle) 0 initial_state)
  = Returned StillRunning.
Proof.
  apply (loop_runs_while_cycles_complete config60 (fun _ => idle_cycle)).
  intros k s _. split; [apply idle_cycle_completes | reflexivity].
Defined.
